(** * Kozani: the perinatal companion's routing and trusted-retrieval core

    A shallow embedding of the parts of [src/app3.js] (front end and the
    Express proxy that follows it in the same file) and [src/appv1.js]
    that route a message, resolve a knowledge-pack topic, rank and fetch
    search results and verify extractive summaries.

    JavaScript strings are sequences of UTF-16 code units, modelled as
    [list Z].  String literals of this file are written in UTF-8 and
    converted with [js].  Regular expressions of the source are written
    verbatim and parsed by [parse_re]; regexes without the [u] flag work
    on code units, as in JavaScript. *)

From Stdlib Require Import ZArith String Ascii List Bool Lia Permutation Sorted.
Import ListNotations.
Open Scope Z_scope.

(* ------------------------------------------------------------------ *)
(** ** JavaScript strings *)

Definition jstr := list Z.

(** UTF-8 decoding of the bytes of a Rocq string literal into code points. *)
Fixpoint utf8_decode (bs : list Z) : list Z :=
  match bs with
  | [] => []
  | b :: rest =>
      if b <? 128 then b :: utf8_decode rest
      else if b <? 224 then
        match rest with
        | b1 :: r => ((b - 192) * 64 + (b1 - 128)) :: utf8_decode r
        | [] => []
        end
      else if b <? 240 then
        match rest with
        | b1 :: b2 :: r =>
            ((b - 224) * 4096 + (b1 - 128) * 64 + (b2 - 128)) :: utf8_decode r
        | _ => []
        end
      else
        match rest with
        | b1 :: b2 :: b3 :: r =>
            ((b - 240) * 262144 + (b1 - 128) * 4096 + (b2 - 128) * 64
             + (b3 - 128)) :: utf8_decode r
        | _ => []
        end
  end.

Definition is_high (u : Z) : bool := (55296 <=? u) && (u <=? 56319).
Definition is_low (u : Z) : bool := (56320 <=? u) && (u <=? 57343).
Definition is_surrogate (u : Z) : bool := (55296 <=? u) && (u <=? 57343).

(** UTF-16 encoding of one code point, and of a list of them. *)
Definition units_of (c : Z) : list Z :=
  if c <? 65536 then [c]
  else [55296 + (c - 65536) / 1024; 56320 + (c - 65536) mod 1024].

Definition encode (cps : list Z) : jstr := flat_map units_of cps.

(** UTF-16 decoding as the [u] regex flag and [toLowerCase] see a string:
    a high surrogate followed by a low one is one code point, any other
    surrogate stands for itself. *)
Fixpoint decode (s : jstr) : list Z :=
  match s with
  | [] => []
  | u :: rest =>
      if is_high u then
        match rest with
        | v :: r =>
            if is_low v then (65536 + (u - 55296) * 1024 + (v - 56320)) :: decode r
            else u :: decode rest
        | [] => [u]
        end
      else u :: decode rest
  end.

Definition js (s : string) : jstr :=
  encode (utf8_decode (map (fun a => Z.of_nat (nat_of_ascii a)) (list_ascii_of_string s))).

Definition ch (a : ascii) : Z := Z.of_nat (nat_of_ascii a).

(** [\s] of JavaScript regexes, and the characters [String.prototype.trim]
    removes: WhiteSpace and LineTerminator. *)
Definition is_ws (c : Z) : bool :=
  (c =? 9) || (c =? 10) || (c =? 11) || (c =? 12) || (c =? 13) || (c =? 32)
  || (c =? 160) || (c =? 5760) || ((8192 <=? c) && (c <=? 8202))
  || (c =? 8232) || (c =? 8233) || (c =? 8239) || (c =? 8287)
  || (c =? 12288) || (c =? 65279).

Definition is_line_term (c : Z) : bool :=
  (c =? 10) || (c =? 13) || (c =? 8232) || (c =? 8233).

(** [\w] without the [u] flag. *)
Definition is_word (c : Z) : bool :=
  ((65 <=? c) && (c <=? 90)) || ((97 <=? c) && (c <=? 122))
  || ((48 <=? c) && (c <=? 57)) || (c =? 95).

Definition is_digit (c : Z) : bool := (48 <=? c) && (c <=? 57).

Definition lower_ascii (c : Z) : Z :=
  if (65 <=? c) && (c <=? 90) then c + 32 else c.
Definition upper_ascii (c : Z) : Z :=
  if (97 <=? c) && (c <=? 122) then c - 32 else c.

(** [String.prototype.trim]. *)
Fixpoint drop_ws (s : jstr) : jstr :=
  match s with
  | c :: r => if is_ws c then drop_ws r else s
  | [] => []
  end.
Definition trim (s : jstr) : jstr := rev (drop_ws (rev (drop_ws s))).

(** [s.replace(/\s+/g, " ")]: every maximal run of whitespace becomes one
    space; [in_run] says that the previous unit was whitespace. *)
Fixpoint collapse_ws_aux (in_run : bool) (s : jstr) : jstr :=
  match s with
  | [] => []
  | c :: r =>
      if is_ws c then
        (if in_run then collapse_ws_aux true r else 32 :: collapse_ws_aux true r)
      else c :: collapse_ws_aux false r
  end.
Definition collapse_ws (s : jstr) : jstr := collapse_ws_aux false s.

(** [a.includes(b)]: [b] occurs as a contiguous block of code units. *)
Fixpoint prefixb (p s : jstr) : bool :=
  match p, s with
  | [], _ => true
  | x :: p', y :: s' => (x =? y) && prefixb p' s'
  | _ :: _, [] => false
  end.
Fixpoint includes (s p : jstr) : bool :=
  prefixb p s || match s with [] => false | _ :: s' => includes s' p end.

(** [s.split(sep)] for a one-unit separator. *)
Fixpoint split_on (sep : Z) (s : jstr) : list jstr :=
  match s with
  | [] => [[]]
  | c :: r =>
      if c =? sep then [] :: split_on sep r
      else match split_on sep r with
           | w :: ws => (c :: w) :: ws
           | [] => [[c]]
           end
  end.

(** [s.slice(0, e)] for an integer [e]: a negative end counts from the end. *)
Definition slice_to (s : jstr) (e : Z) : jstr :=
  let n := Z.of_nat (length s) in
  let e' := if e <? 0 then Z.max 0 (n + e) else Z.min e n in
  firstn (Z.to_nat e') s.

(** [s.slice(b, e)] for [0 <= b]. *)
Definition slice (s : jstr) (b e : Z) : jstr :=
  skipn (Z.to_nat b) (slice_to s e).

(** JavaScript truthiness of a string: non-empty. *)
Definition truthy (s : jstr) : bool :=
  match s with [] => false | _ => true end.

(* ------------------------------------------------------------------ *)
(** ** The JavaScript platform

    What the code takes from the engine rather than from this repository:
    the Unicode case mapping used by [toLowerCase], the [\p{L}] and [\p{N}]
    property tables of [u] regexes, and the WHATWG [URL] parser. *)

Record url_rec := { url_hostname : jstr; url_pathname : jstr }.

Class Platform := {
  (** full lowercase mapping of one code point, given the code points
      before it (nearest first) and after it (final sigma is contextual) *)
  lower_cp : list Z -> Z -> list Z -> list Z;
  is_letter : Z -> bool;
  is_number : Z -> bool;
  (** [new URL(s)]: [None] when the constructor throws *)
  url_parse : jstr -> option url_rec
}.

Section PlatformOps.
Context `{P : Platform}.

Fixpoint lower_cps (before : list Z) (cps : list Z) : list Z :=
  match cps with
  | [] => []
  | c :: r => lower_cp before c r ++ lower_cps (c :: before) r
  end.

(** [String.prototype.toLowerCase]. *)
Definition toLowerCase (s : jstr) : jstr := encode (lower_cps [] (decode s)).

End PlatformOps.

(* ------------------------------------------------------------------ *)
(** ** Regular expressions (the subset the source uses), for [test]

    A backtracking matcher in continuation-passing style.  [pre] holds the
    units already consumed, nearest first, so that [\b] and [^] can look
    back.  Only the existence of a match matters for [RegExp.test], so
    greedy and lazy quantifiers coincide. *)

Inductive citem :=
| CRange (lo hi : Z)
| CSpace
| CDigit
| CWord.

Inductive re :=
| RFail
| REmpty
| RChar (c : Z)
| RClass (neg : bool) (items : list citem)
| RAny
| RSeq (a b : re)
| RAlt (a b : re)
| RStar (a : re)
| RBol
| REol
| RWordB
| RNotWordB.

Definition citem_has (c : Z) (it : citem) : bool :=
  match it with
  | CRange lo hi => (lo <=? c) && (c <=? hi)
  | CSpace => is_ws c
  | CDigit => is_digit c
  | CWord => is_word c
  end.

Definition class_has (ci : bool) (items : list citem) (c : Z) : bool :=
  existsb (citem_has c) items
  || (ci && (existsb (citem_has (lower_ascii c)) items
             || existsb (citem_has (upper_ascii c)) items)).

(** Character comparison; with the [i] flag letters are compared by their
    case-folded form (non-ASCII units never fold onto ASCII ones). *)
Definition char_eq (ci : bool) (c x : Z) : bool :=
  if ci then lower_ascii c =? lower_ascii x else c =? x.

Definition word_before (pre : list Z) : bool :=
  match pre with x :: _ => is_word x | [] => false end.
Definition word_after (s : list Z) : bool :=
  match s with x :: _ => is_word x | [] => false end.

Fixpoint mt (ci : bool) (r : re) (pre s : list Z)
    (k : list Z -> list Z -> bool) {struct r} : bool :=
  match r with
  | RFail => false
  | REmpty => k pre s
  | RChar c =>
      match s with x :: s' => char_eq ci c x && k (x :: pre) s' | [] => false end
  | RClass neg items =>
      match s with
      | x :: s' => xorb neg (class_has ci items x) && k (x :: pre) s'
      | [] => false
      end
  | RAny =>
      match s with x :: s' => negb (is_line_term x) && k (x :: pre) s' | [] => false end
  | RSeq a b => mt ci a pre s (fun p t => mt ci b p t k)
  | RAlt a b => mt ci a pre s k || mt ci b pre s k
  | RStar a =>
      (fix loop (n : nat) (p t : list Z) {struct n} : bool :=
         match n with
         | O => k p t
         | S n' =>
             mt ci a p t (fun p' t' => Nat.ltb (length t') (length t) && loop n' p' t')
             || k p t
         end) (S (length s)) pre s
  | RBol => match pre with [] => k pre s | _ => false end
  | REol => match s with [] => k pre s | _ => false end
  | RWordB => if Bool.eqb (word_before pre) (word_after s) then false else k pre s
  | RNotWordB => if Bool.eqb (word_before pre) (word_after s) then k pre s else false
  end.

Fixpoint test_from (ci : bool) (r : re) (pre s : list Z) : bool :=
  mt ci r pre s (fun _ _ => true)
  || match s with [] => false | x :: s' => test_from ci r (x :: pre) s' end.

(** *** Parsing a pattern, written as in the source *)

Definition ropt (a : re) : re := RAlt a REmpty.
Definition rplus (a : re) : re := RSeq a (RStar a).

(** The class escapes [\s], [\d], [\w]; any other escaped unit is itself. *)
Definition class_escape (e : Z) : citem :=
  if e =? ch "s" then CSpace
  else if e =? ch "d" then CDigit
  else if e =? ch "w" then CWord
  else CRange e e.

(** Items of a bracket class up to the closing bracket. *)
Fixpoint pclass (s : list Z) : option (list citem * list Z) :=
  match s with
  | [] => None
  | c :: r =>
      if c =? ch "]" then Some ([], r)
      else if c =? ch "\" then
        match r with
        | e :: r' =>
            match pclass r' with
            | Some (its, rest) => Some (class_escape e :: its, rest)
            | None => None
            end
        | [] => None
        end
      else
        match r with
        | d :: e :: r' =>
            if (d =? ch "-") && negb (e =? ch "]") then
              match pclass r' with
              | Some (its, rest) => Some (CRange c e :: its, rest)
              | None => None
              end
            else
              match pclass r with
              | Some (its, rest) => Some (CRange c c :: its, rest)
              | None => None
              end
        | _ =>
            match pclass r with
            | Some (its, rest) => Some (CRange c c :: its, rest)
            | None => None
            end
        end
  end.

Definition atom_escape (e : Z) : re :=
  if e =? ch "b" then RWordB
  else if e =? ch "B" then RNotWordB
  else if e =? ch "s" then RClass false [CSpace]
  else if e =? ch "S" then RClass true [CSpace]
  else if e =? ch "d" then RClass false [CDigit]
  else if e =? ch "w" then RClass false [CWord]
  else RChar e.

(** A quantifier after an atom; a trailing [?] (lazy) changes nothing for
    [test]. *)
Definition skip_lazy (s : list Z) : list Z :=
  match s with c :: r => if c =? ch "?" then r else s | [] => [] end.

Definition pquant (a : re) (s : list Z) : re * list Z :=
  match s with
  | c :: r =>
      if c =? ch "?" then (ropt a, skip_lazy r)
      else if c =? ch "*" then (RStar a, skip_lazy r)
      else if c =? ch "+" then (rplus a, skip_lazy r)
      else (a, s)
  | [] => (a, s)
  end.

Fixpoint pdisj (n : nat) (s : list Z) : option (re * list Z) :=
  match n with
  | O => None
  | S n' =>
      match palt n' s with
      | Some (a, c :: s') =>
          if c =? ch "|" then
            match pdisj n' s' with
            | Some (b, s'') => Some (RAlt a b, s'')
            | None => None
            end
          else Some (a, c :: s')
      | r => r
      end
  end
with palt (n : nat) (s : list Z) : option (re * list Z) :=
  match n with
  | O => None
  | S n' =>
      match s with
      | [] => Some (REmpty, [])
      | c :: _ =>
          if (c =? ch "|") || (c =? ch ")") then Some (REmpty, s)
          else
            match patom n' s with
            | Some (a, s1) =>
                let (t, s2) := pquant a s1 in
                match palt n' s2 with
                | Some (u, s3) => Some (RSeq t u, s3)
                | None => None
                end
            | None => None
            end
      end
  end
with patom (n : nat) (s : list Z) : option (re * list Z) :=
  match n with
  | O => None
  | S n' =>
      match s with
      | [] => None
      | c :: r =>
          if c =? ch "(" then
            let body := match r with
                        | q :: k :: r' => if (q =? ch "?") && (k =? ch ":") then r' else r
                        | _ => r
                        end in
            match pdisj n' body with
            | Some (a, d :: r'') => if d =? ch ")" then Some (a, r'') else None
            | _ => None
            end
          else if c =? ch "[" then
            let '(neg, body) := match r with
                                | h :: r' => if h =? ch "^" then (true, r') else (false, r)
                                | [] => (false, r)
                                end in
            match pclass body with
            | Some (its, rest) => Some (RClass neg its, rest)
            | None => None
            end
          else if c =? ch "." then Some (RAny, r)
          else if c =? ch "^" then Some (RBol, r)
          else if c =? ch "$" then Some (REol, r)
          else if c =? ch "\" then
            match r with e :: r' => Some (atom_escape e, r') | [] => None end
          else if (c =? ch "*") || (c =? ch "+") || (c =? ch "?") then None
          else Some (RChar c, r)
      end
  end.

Definition parse_re (src : jstr) : option re :=
  match pdisj (4 * length src + 4)%nat src with
  | Some (r, []) => Some r
  | _ => None
  end.

(** A regex literal of the source: its pattern and its [i] flag. *)
Record regex := { rx_src : jstr; rx_i : bool }.

Definition rx (src : string) : regex := {| rx_src := js src; rx_i := false |}.
Definition rxi (src : string) : regex := {| rx_src := js src; rx_i := true |}.

(** [RegExp.prototype.test] (no [g] flag, so [lastIndex] plays no part). *)
Definition test (x : regex) (s : jstr) : bool :=
  match parse_re (rx_src x) with
  | Some r => test_from (rx_i x) r [] s
  | None => false
  end.

(* ------------------------------------------------------------------ *)
(** ** Text classifier ([detectIntent], app3.js lines 434-492) *)

Inductive info_topic :=
| Breastfeeding | Newborn | Psych | Obstetric | Meds | Contraception
| Labour | Postpartum | Nutrition | WarningSigns | ClinicVisits | Immunization.

Inductive intent :=
| Emergency | Greeting | Gratitude | Goodbye | Clarify | Followup | CareNav
| Ideas | InfoOn (t : info_topic) | Info | Comfort | Smalltalk | Feelings.

Definition rx_selfHarm := rxi "\b(kill myself|end my life|suicide|suicid|harm myself|hurt myself|i (do ?n'?t|dont) want to live)\b".
Definition rx_emergencyPhys := rxi "\b(severe|heavy bleeding|passing clots|faint(ing)?|collapse|chest pain|can('?t)? breathe|difficulty breathing|shortness of breath|convulsion|seizure)\b".
Definition rx_greeting := rxi "^(hi|hey|hello|hie|heyy|howzit|morning|afternoon|evening)\b|👋".
Definition rx_gratitude := rxi "\b(thanks|thank you|much appreciated|appreciate it|cheers)\b".
Definition rx_goodbye := rxi "\b(bye|goodbye|see you|gtg|talk later|catch you)\b".
Definition rx_clarify := rxi "\b(what do you mean|not clear|explain|clarify|make it simple|simple terms)\b".
Definition rx_followup := rxi "\b(tell me more|more detail|elaborate|expand|give me more)\b".
Definition rx_care_nav := rxi "\b(clinic|hospital|midwife|sister|nurse|doctor|ob[-\s]?gyn|nearest|appointment|book|hotline|helpline|call|number|where can i go)\b".
Definition rx_ideas := rxi "\b(ideas?|tips?|suggestions?|how can i relax|help me relax|simple things to try)\b".
Definition rx_isQuestion := rxi "(\?|^how\b|^what\b|^when\b|^why\b|^which\b|^where\b|^can\b|^should\b|^is it\b)".
Definition rx_wantsSources := rxi "\b(who|unicef|department of health|do[ht]\b|guideline|source|evidence|research|nice|bmj)\b".
Definition rx_breastfeeding := rxi "\b(breast\s*feed(ing)?|breastfeed(ing)?|lactation|latching?|milk\s*supply|colostrum|mastitis|engorgement|wean(ing)?|exclusive\b)\b".
Definition rx_newborn := rxi "\b(newborn|baby (sleep|feeding)|colic|burp(ing)?|nappy|diaper|jaundice|umbilical|cord care|skin(?:\s*-\s*| )to(?:\s*-\s*| )skin)\b".
Definition rx_psych := rxi "\b(post(?:partum|natal)|perinatal)\b.*\b(depression|anxiety|pnd)\b|\b(baby\s*blues)\b".
Definition rx_obstetric := rxi "\b(trimester|ultrasound|scan|screening|kick count|reduced movements|spotting|cramp|contractions?|waters? (broke|breaking)|swelling|pre[-\s]?eclampsia|gestational|gdm)\b".
Definition rx_meds := rxi "\b(paracetamol|acetaminophen|ibuprofen|antibiotic|iron|folate|folic acid|prenatal|dose|dosage|mg|medication|medicine|safe to take)\b".
Definition rx_contraception := rxi "\b(birth\s*-?\s*control|contracept|family planning|contraceptive|postpartum\s+contracept)\b".
Definition rx_labour := rxi "\b(labou?r|contractions?|tim(ing|e) contractions?|waters? (broke|breaking)|mucus plug|bloody show|birth plan|delivery|active labour|latent labour)\b".
Definition rx_postpartum := rxi "\b(post(?:partum|natal)|after birth|lochia|perineal|stitches|c-?section recovery|bleeding after birth|postpartum check|afterpains)\b".
Definition rx_nutrition := rxi "\b(nutrition|diet|foods?|what (to|can i) eat|eat(ing)? well|supplements?|folate|folic acid|iron|calcium|iodine|vitamin\s*(d|b12)|caffeine|alcohol)\b".
Definition rx_warningSigns := rxi "\b(warning signs?|red flags?|danger signs?|severe headache|blurred vision|fits|fever|reduced (baby )?movements?|heavy bleeding|severe pain|swelling of (face|hands))\b".
Definition rx_clinicVisits := rxi "\b(antenatal|anc|prenatal|booking|first booking|visit schedule|how often|how many visits|when should i go|clinic card|maternity record)\b".
Definition rx_immunization := rxi "\b(vaccin(e|ation)|immuni[sz]e|immuni[sz]ation|shots?|bcg|opv|ipv|hep(?:atitis)? ?b|dtap|mmr|6 ?weeks|10 ?weeks|14 ?weeks|measles)\b".
Definition rx_medicalish := rxi "\b(fever|bleeding|pain|swelling|medicine|medication|dose|trimester|ultrasound|screening|mastitis|breast(?:\s*|-)feeding|latch|colic|contractions?|labou?r|dehydration|hypertension|pre[-\s]?eclampsia|gestational|post(?:partum|natal)|perinatal|depression|anxiety|baby blues|pnd|contracept|family planning|birth\s*-?\s*control|jaundice|umbilical)\b".
Definition rx_lowMood := rxi "\b(sad|down|overwhelmed|anxious|worried|confused|stressed|tired|lonely|drained|scared|fearful)\b".
Definition rx_smalltalk := rxi "(^hmm$|lol|haha|hehe|😊|☺️|😅|😂|🤣|😉|🙂|❤️)".

Section Classifier.
Context `{P : Platform}.

(** The safety lexicon of the hard gate, on the lowercased, trimmed text. *)
Definition emergency_lexicon (text : jstr) : bool :=
  let t := trim (toLowerCase text) in
  test rx_selfHarm t || test rx_emergencyPhys t.

Definition detectIntent (text : jstr) : intent :=
  let t := trim (toLowerCase text) in
  let selfHarm := test rx_selfHarm t in
  let emergencyPhys := test rx_emergencyPhys t in
  if selfHarm || emergencyPhys then Emergency else
  if test rx_greeting t then Greeting else
  if test rx_gratitude t then Gratitude else
  if test rx_goodbye t then Goodbye else
  if test rx_clarify t then Clarify else
  if test rx_followup t then Followup else
  if test rx_care_nav t then CareNav else
  if test rx_ideas t then Ideas else
  let isQuestion := test rx_isQuestion t in
  let wantsSources := test rx_wantsSources t in
  let medicalish := test rx_medicalish t in
  let infoLike := isQuestion || wantsSources || medicalish in
  if infoLike then
    if test rx_breastfeeding t then InfoOn Breastfeeding else
    if test rx_newborn t then InfoOn Newborn else
    if test rx_psych t then InfoOn Psych else
    if test rx_obstetric t then InfoOn Obstetric else
    if test rx_meds t then InfoOn Meds else
    if test rx_contraception t then InfoOn Contraception else
    if test rx_labour t then InfoOn Labour else
    if test rx_postpartum t then InfoOn Postpartum else
    if test rx_nutrition t then InfoOn Nutrition else
    if test rx_warningSigns t then InfoOn WarningSigns else
    if test rx_clinicVisits t then InfoOn ClinicVisits else
    if test rx_immunization t then InfoOn Immunization else
    Info
  else
  if test rx_lowMood t then Comfort else
  if test rx_smalltalk t then Smalltalk else
  Feelings.

End Classifier.

(* ------------------------------------------------------------------ *)
(** ** An executable platform for concrete inputs

    Lowercasing of ASCII letters, ASCII letters and digits as [\p{L}] and
    [\p{N}], and a URL parser for absolute URLs of the form
    [scheme://[user@]host[:port][/path][?query][#fragment]].  On ASCII
    inputs of that shape it agrees with the engine; it is only used to run
    the code on concrete inputs. *)

Fixpoint take_until (stop : Z -> bool) (s : jstr) : jstr * jstr :=
  match s with
  | [] => ([], [])
  | c :: r => if stop c then ([], s) else let (a, b) := take_until stop r in (c :: a, b)
  end.

Definition scheme_char (c : Z) : bool :=
  is_word c && negb (c =? 95) || (c =? ch "+") || (c =? ch ".") || (c =? ch "-").

Fixpoint scheme_split (s : jstr) : option (jstr * jstr) :=
  match s with
  | [] => None
  | c :: r =>
      if c =? ch ":" then
        match r with
        | a :: b :: r' => if (a =? ch "/") && (b =? ch "/") then Some ([], r') else None
        | _ => None
        end
      else if scheme_char c then
        match scheme_split r with
        | Some (sc, rest) => Some (c :: sc, rest)
        | None => None
        end
      else None
  end.

(** What follows the last [@] of the authority. *)
Definition after_at (s : jstr) : jstr :=
  rev (fst (take_until (fun x => x =? ch "@") (rev s))).

Definition simple_url_parse (s : jstr) : option url_rec :=
  match scheme_split s with
  | Some (c :: _ as sc, rest) =>
      if negb (is_word c && negb (is_digit c) && negb (c =? 95)) then None else
      let (auth, tail) := take_until (fun x => (x =? ch "/") || (x =? ch "?") || (x =? ch "#")) rest in
      let host := map lower_ascii (fst (take_until (fun x => x =? ch ":") (after_at auth))) in
      let path := fst (take_until (fun x => (x =? ch "?") || (x =? ch "#")) tail) in
      match host with
      | [] => None
      | _ => Some {| url_hostname := host;
                     url_pathname := match path with [] => [ch "/"] | _ => path end |}
      end
  | _ => None
  end.

#[export] Instance platform_ascii : Platform := {
  lower_cp := fun _ c _ => [lower_ascii c];
  is_letter := fun c => ((65 <=? c) && (c <=? 90)) || ((97 <=? c) && (c <=? 122));
  is_number := is_digit;
  url_parse := simple_url_parse
}.

(* ------------------------------------------------------------------ *)
(** ** Knowledge-pack resolver (app3.js lines 372-409; appv1.js 392-404) *)

(** A catalog entry of [content/topics.json].  A missing [title] reads as
    the empty string both in [normalize(t.title)] ([s || ""]) and in
    [join] (which prints [undefined] as nothing); missing lists read as
    [[]] ([topic.keywords || []]). *)
Record topic := {
  title : jstr;
  keywords : list jstr;
  aliases : list jstr;
  tags : list jstr;
  path : jstr
}.

Fixpoint jeqb (a b : jstr) : bool :=
  match a, b with
  | [], [] => true
  | x :: a', y :: b' => (x =? y) && jeqb a' b'
  | _, _ => false
  end.

(** [arr.join(" ")]. *)
Fixpoint join_sp (l : list jstr) : jstr :=
  match l with
  | [] => []
  | [w] => w
  | w :: ws => w ++ 32 :: join_sp ws
  end.

(** [new Set(l)] as the sequence it iterates: first occurrences in order. *)
Definition set_of (l : list jstr) : list jstr :=
  fold_left (fun acc w => if existsb (jeqb w) acc then acc else acc ++ [w]) l [].

Section Resolver.
Context `{P : Platform}.

(** [s.replace(/[^\p{L}\p{N}\s]/gu, " ")]: per code point. *)
Definition replace_non_LNS (s : jstr) : jstr :=
  encode (map (fun c => if is_letter c || is_number c || is_ws c then c else 32) (decode s)).

Definition normalize (s : jstr) : jstr :=
  trim (collapse_ws (replace_non_LNS (toLowerCase s))).

Definition tokenize (s : jstr) : list jstr := filter truthy (split_on 32 (normalize s)).

Definition tokenOverlap (a b : list jstr) : Z :=
  let A := set_of a in
  let B := set_of b in
  Z.of_nat (length (filter (fun w => existsb (jeqb w) B) A)).

Definition kws_of (t : topic) : list jstr := keywords t ++ aliases t ++ tags t.

Definition bag (t : topic) : jstr := join_sp (title t :: kws_of t).

Definition title_hit (q : jstr) (t : topic) : bool := includes q (normalize (title t)).

Definition kw_hit (q : jstr) (t : topic) : bool :=
  existsb (fun k => includes q k) (map normalize (kws_of t)).

Definition overlap_score (qTokens : list jstr) (t : topic) : Z :=
  tokenOverlap (set_of qTokens) (set_of (tokenize (bag t))).

(** The fuzzy loop: [if (score > bestScore) { best = topic; bestScore = score; }]. *)
Definition best_overlap (qTokens : list jstr) (cat : list topic) : option topic * Z :=
  fold_left (fun '(best, bestScore) t =>
               let score := overlap_score qTokens t in
               if bestScore <? score then (Some t, score) else (best, bestScore))
            cat (None, 0).

Definition findTopicForMessage (cat : list topic) (text : jstr) : option topic :=
  let q := normalize text in
  match find (title_hit q) cat with
  | Some t => Some t
  | None =>
      match find (kw_hit q) cat with
      | Some t => Some t
      | None =>
          let qTokens := tokenize q in
          let '(best, bestScore) := best_overlap qTokens cat in
          if 2 <=? bestScore then best else None
      end
  end.

End Resolver.

(* ------------------------------------------------------------------ *)
(** ** Conversation router (the form submit handler, app3.js lines 724-840) *)

Definition rx_isGreeting_words := rxi "^(hi|hey|hello|hie|heyy|hiya|howzit|yo|sup|morning|afternoon|evening)[!.,\s]?$".
Definition rx_isGreeting_emoji := rx "[👋🙂😊😉]".
Definition rx_socialCheckIn := rxi "\b(how\s*(are|r)\s*(you|u)\??|how[’']?s it going|how is it going|how are things|you ok(ay)?|you alright)\b".
Definition rx_yes := rxi "\b(yes|sure|ok|okay|please|go ahead|yep|yeah)\b".
Definition rx_no := rxi "\b(no|nope|nah|not now|later)\b".

(** The fixed bot replies of the handler, by the text they carry. *)
Inductive reply :=
| SocialAck         (** "glad you’re doing okay. anything you want to talk about today?" *)
| GreetAgain        (** "still around 😊 what’s up?" *)
| GreetNew          (** "hey 👋 how’s your day going?" *)
| ConsentDeclined   (** "No problem — we can keep chatting. What’s on your mind?" *)
| Crisis            (** "I’m really concerned. This sounds urgent. ... SADAG ..." *)
| Welcome           (** "you’re welcome — happy to help 💛" *)
| Farewell          (** "take care — here whenever you want to chat." *)
| AskWhichPart      (** "sure — which part should I make simpler?" *)
| GoDeeper          (** "happy to go deeper — which bit do you want more on?" *)
| CareNavReply      (** "I can help you think through next steps. ..." *)
| SmalltalkReply    (** "🙂 got you — tell me more?" *)
| AskConsent.       (** "I might not have that in my library yet. Want me to check trusted sources ...?" *)

(** What one turn does, in order.  [AnswerTopic] is [answerFromTopic]
    (a pack fetch and a model paraphrase), [WebSearch] is [startWebSearch]
    (a network call), [ChatReply] is [chatReply] (a model completion); only
    [Say] is free of model and network. *)
Inductive effect :=
| Say (r : reply)
| AnswerTopic (p : jstr)
| WebSearch (q : jstr)
| ChatReply (text : jstr).


(** Messages an effect appends to [chatHistory] through [addMsg]. *)
Definition effect_msgs (e : effect) : Z :=
  match e with Say _ => 1 | AnswerTopic _ => 2 | WebSearch _ => 1 | ChatReply _ => 1 end.

Record session := {
  searchOptIn : bool;
  awaitingSearchConsent : option jstr;
  lastGreetTurn : Z;
  histLen : Z            (** [chatHistory.length], at most 6 *)
}.

Definition idle_session : session :=
  {| searchOptIn := false; awaitingSearchConsent := None; lastGreetTurn := -999; histLen := 1 |}.

Definition set_consent (st : session) (optIn : bool) (pending : option jstr) : session :=
  {| searchOptIn := optIn; awaitingSearchConsent := pending;
     lastGreetTurn := lastGreetTurn st; histLen := histLen st |}.

(** [addMsg]/[pushHistory]: one more message, the window kept to 6. *)
Definition add_msgs (st : session) (n : Z) : session :=
  {| searchOptIn := searchOptIn st; awaitingSearchConsent := awaitingSearchConsent st;
     lastGreetTurn := lastGreetTurn st; histLen := Z.min 6 (histLen st + n) |}.

Definition run (st : session) (es : list effect) : session * list effect :=
  (add_msgs st (fold_right Z.add 0 (map effect_msgs es)), es).

Definition isInfoIntent (i : intent) : bool :=
  match i with Info | InfoOn _ => true | _ => false end.

(** The handler's [intentToTopic] (all twelve info topics mapped). *)
Definition intentToTopic (i : intent) : option jstr :=
  match i with
  | InfoOn Breastfeeding => Some (js "content/breastfeeding.json")
  | InfoOn Newborn => Some (js "content/newborn_basics.json")
  | InfoOn Psych => Some (js "content/mental_health.json")
  | InfoOn Obstetric => Some (js "content/antenatal_care_basics.json")
  | InfoOn Meds => Some (js "content/medicines_in_pregnancy.json")
  | InfoOn Contraception => Some (js "content/contraception_postpartum.json")
  | InfoOn Labour => Some (js "content/labour_and_birth.json")
  | InfoOn Postpartum => Some (js "content/postpartum_care_basics.json")
  | InfoOn Nutrition => Some (js "content/pregnancy_nutrition.json")
  | InfoOn WarningSigns => Some (js "content/warning_signs.json")
  | InfoOn ClinicVisits => Some (js "content/antenatal_visit_schedule.json")
  | InfoOn Immunization => Some (js "content/infant_immunization.json")
  | _ => None
  end.

(** The six-entry map local to [handleInfoLike]. *)
Definition intentToTopic_info (i : intent) : option jstr :=
  match i with
  | InfoOn Breastfeeding => Some (js "content/breastfeeding.json")
  | InfoOn Newborn => Some (js "content/newborn_basics.json")
  | InfoOn Psych => Some (js "content/mental_health.json")
  | InfoOn Obstetric => Some (js "content/antenatal_care_basics.json")
  | InfoOn Meds => Some (js "content/medicines_in_pregnancy.json")
  | InfoOn Contraception => Some (js "content/contraception_postpartum.json")
  | _ => None
  end.

Section Router.
Context `{P : Platform}.
Variable cat : list topic.   (** [topicsIndex], loaded once *)

Definition isGreeting (text : jstr) : bool :=
  let t := toLowerCase (trim text) in
  test rx_isGreeting_words t || test rx_isGreeting_emoji t.

Definition isSocialCheckIn (text : jstr) : bool := test rx_socialCheckIn (trim text).

(** [handleInfoLike] (lines 412-430). *)
Definition handleInfoLike (userText : jstr) (scopedIntent : intent) : list effect :=
  match findTopicForMessage cat userText with
  | Some t => [AnswerTopic (path t)]
  | None =>
      match intentToTopic_info scopedIntent with
      | Some p => [AnswerTopic p]
      | None => [WebSearch userText]
      end
  end.

(** From the intent detection on (steps 3 to 7 of the handler).  The
    ideas branch (step 5) is guarded by [typeof asksForIdeas === "function"],
    and no [asksForIdeas] is defined in the file, so it never runs. *)
Definition after_consent (st : session) (text : jstr) : session * list effect :=
  let i := detectIntent text in
  match i with
  | Emergency => run st [Say Crisis]
  | Gratitude => run st [Say Welcome]
  | Goodbye => run st [Say Farewell]
  | Clarify => run st [Say AskWhichPart]
  | Followup => run st [Say GoDeeper]
  | CareNav => run st [Say CareNavReply]
  | Smalltalk => run st [Say SmalltalkReply]
  | _ =>
      match findTopicForMessage cat text with
      | Some t => run st [AnswerTopic (path t)]
      | None =>
          if isInfoIntent i then
            match intentToTopic i with
            | Some p => run st [AnswerTopic p]
            | None =>
                if searchOptIn st then run st (handleInfoLike text i)
                else run (set_consent st (searchOptIn st) (Some text)) [Say AskConsent]
            end
          else run st [ChatReply text]
      end
  end.

Definition submit (st0 : session) (raw : jstr) : session * list effect :=
  let text := trim raw in
  if negb (truthy text) then (st0, []) else
  let st := add_msgs st0 1 in
  if isSocialCheckIn text then run st [Say SocialAck] else
  if isGreeting text then
    let r := if histLen st - lastGreetTurn st <=? 2 then GreetAgain else GreetNew in
    let st' := add_msgs st 1 in
    ({| searchOptIn := searchOptIn st'; awaitingSearchConsent := awaitingSearchConsent st';
        lastGreetTurn := histLen st'; histLen := histLen st' |}, [Say r])
  else
  match awaitingSearchConsent st with
  | Some original =>
      if test rx_yes text then
        run (set_consent st true None) (handleInfoLike original (detectIntent original))
      else if test rx_no text then
        run (set_consent st (searchOptIn st) None) [Say ConsentDeclined]
      else after_consent (set_consent st (searchOptIn st) None) text
  | None => after_consent st text
  end.

End Router.

(* ------------------------------------------------------------------ *)
(** ** Retrieval gateway: the Express proxy (app3.js lines 842-1076) *)

(** [s.endsWith(suffix)]. *)
Definition ends_with (s suffix : jstr) : bool := prefixb (rev suffix) (rev s).

(** [ALLOW_LIST]: [split(",").map(s => s.trim().toLowerCase()).filter(Boolean)]. *)
Definition allow_list_of `{Platform} (env : jstr) : list jstr :=
  filter truthy (map (fun s => toLowerCase (trim s)) (split_on (ch ",") env)).

Section Gateway.
Context `{P : Platform}.
Variable ALLOW_LIST : list jstr.

Definition hostIsAllowed (url : jstr) : bool :=
  match url_parse url with
  | None => false
  | Some u =>
      let h := toLowerCase (url_hostname u) in
      existsb (fun d => jeqb h d || ends_with h (ch "." :: d)) ALLOW_LIST
  end.

(** The trust boundary in the words of the spec. *)
Definition in_boundary (url : jstr) : Prop :=
  exists u d, url_parse url = Some u /\ In d ALLOW_LIST /\
    (toLowerCase (url_hostname u) = d
     \/ exists pre, toLowerCase (url_hostname u) = pre ++ ch "." :: d).

(** One item of the upstream (Google Custom Search) answer. *)
Record raw_item := { it_title : jstr; it_link : jstr; it_snippet : jstr }.
(** One item of the [/api/search] answer. *)
Record search_item := { name : jstr; url : jstr; snippet : jstr }.

Inductive http_response :=
| SearchOk (items : list search_item)
| Status (code : Z) (error : jstr).

(** [/api/search]: [upstream] is the outcome of the upstream call: its
    items, or the status of its failure. *)
Definition api_search (google_configured : bool) (q : option jstr)
    (upstream : list raw_item + Z) : http_response :=
  match ALLOW_LIST with
  | [] => Status 503 (js "ALLOW_LIST is empty on server")
  | _ =>
    if negb google_configured then Status 500 (js "Google API not configured") else
    match q with
    | None | Some [] => Status 400 (js "Missing ?q=")
    | Some _ =>
        match upstream with
        | inr code => Status code (js "upstream error")
        | inl raw =>
            SearchOk (map (fun it => {| name := it_title it; url := it_link it; snippet := it_snippet it |})
                          (filter (fun it => hostIsAllowed (it_link it)) raw))
        end
    end
  end.

(** [/api/fetch] up to its first [await]: the admission check, the
    increment, and the guards that answer before any network request (their
    [return] runs the [finally] decrement at once).  [Pending] is a request
    that went on to fetch the page and holds its place in the counter. *)
Inductive fetch_start :=
| Answered (code : Z) (error : jstr)
| Pending (u : jstr).

Definition fetch_enter (MAX_CONCURRENT_FETCHES activeFetches : Z) (url_q : option jstr)
  : Z * fetch_start :=
  if MAX_CONCURRENT_FETCHES <=? activeFetches then
    (activeFetches, Answered 429 (js "Fetcher is busy, please try again"))
  else
    let active := activeFetches + 1 in
    match url_q with
    | None | Some [] => (active - 1, Answered 400 (js "Missing ?url="))
    | Some u =>
        if negb (hostIsAllowed u) then (active - 1, Answered 403 (js "Domain not allowed"))
        else (active, Pending u)
    end.

(** The rest of the handler runs in the [try]; whatever it does, returning
    a response or throwing into the [catch], the [finally] decrements. *)
Inductive body_outcome :=
| BodyReturned (code : Z)
| BodyThrew (code : Z).

Definition fetch_finish (activeFetches : Z) (o : body_outcome) : Z * Z :=
  (activeFetches - 1, match o with BodyReturned c => c | BodyThrew c => c end).

(** The event loop of the proxy: a request arrives (and runs to its first
    [await]), or an in-flight request resumes and finishes. *)
Inductive gw_event :=
| Arrive (id : nat) (url_q : option jstr)
| Finish (id : nat) (o : body_outcome).

Record gw_state := { activeFetches : Z; inflight : list nat }.

Fixpoint remove_one (x : nat) (l : list nat) : list nat :=
  match l with
  | [] => []
  | y :: r => if Nat.eqb x y then r else y :: remove_one x r
  end.

Definition gw_step (MAX : Z) (s : gw_state) (ev : gw_event) : gw_state :=
  match ev with
  | Arrive id url_q =>
      let (a, r) := fetch_enter MAX (activeFetches s) url_q in
      match r with
      | Pending _ => {| activeFetches := a; inflight := id :: inflight s |}
      | Answered _ _ => {| activeFetches := a; inflight := inflight s |}
      end
  | Finish id o =>
      if existsb (Nat.eqb id) (inflight s)
      then {| activeFetches := fst (fetch_finish (activeFetches s) o);
              inflight := remove_one id (inflight s) |}
      else s
  end.

Definition gw_init : gw_state := {| activeFetches := 0; inflight := [] |}.

Definition gw_run (MAX : Z) (evs : list gw_event) : gw_state :=
  fold_left (gw_step MAX) evs gw_init.

End Gateway.

(* ------------------------------------------------------------------ *)
(** ** The resolver as the spec describes it (section 4.2)

    Compared with [findTopicForMessage] in the theorems.  First a topic
    whose normalized title the normalized query contains, then one with a
    contained normalized keyword, alias or tag; then the topic with the
    largest token overlap, the first in catalog order to reach it, if that
    overlap is at least 2. *)

Section ResolverSpec.
Context `{P : Platform}.

Definition max_overlap (qTokens : list jstr) (cat : list topic) : Z :=
  fold_right Z.max 0 (map (overlap_score qTokens) cat).

Definition resolve_spec (cat : list topic) (text : jstr) : option topic :=
  let q := normalize text in
  match find (title_hit q) cat with
  | Some t => Some t
  | None =>
      match find (kw_hit q) cat with
      | Some t => Some t
      | None =>
          let qTokens := tokenize q in
          let M := max_overlap qTokens cat in
          if 2 <=? M then find (fun t => overlap_score qTokens t =? M) cat else None
      end
  end.

End ResolverSpec.

(* ------------------------------------------------------------------ *)
(** ** Properties of the Unicode data that the normalization relies on

    Facts of the Unicode Character Database: lowercasing leaves surrogates
    alone, maps every scalar value to a non-empty sequence of scalar values
    and is idempotent (whatever the context); the space is its own
    lowercase; letters and numbers are scalar values. *)

Definition valid_cp (c : Z) : Prop := 0 <= c < 1114112.

Definition lower_fixed `{Platform} (d : Z) : Prop := forall b a, lower_cp b d a = [d].

Class UnicodeLaws `{Platform} : Prop := {
  lower_surrogate : forall b c a, is_surrogate c = true -> lower_cp b c a = [c];
  lower_scalar : forall b c a, is_surrogate c = false -> valid_cp c ->
    lower_cp b c a <> [] /\
    Forall (fun d => is_surrogate d = false /\ valid_cp d) (lower_cp b c a);
  lower_idem : forall b c a d, In d (lower_cp b c a) -> lower_fixed d;
  lower_space : lower_fixed 32;
  letter_number_scalar : forall c, is_letter c || is_number c = true ->
    is_surrogate c = false /\ valid_cp c
}.

(** A JavaScript string: code units are 16-bit. *)
Definition units_ok (s : jstr) : Prop := Forall (fun u => 0 <= u < 65536) s.

(** No high surrogate directly followed by a low one. *)
Fixpoint no_pair (l : list Z) : bool :=
  match l with
  | x :: ((y :: _) as r) => negb (is_high x && is_low y) && no_pair r
  | _ => true
  end.

Definition first_low (l : list Z) : bool :=
  match l with x :: _ => is_low x | [] => false end.

Fixpoint last_high (l : list Z) : bool :=
  match l with
  | [] => false
  | [x] => is_high x
  | _ :: r => last_high r
  end.

(** Whitespace after [replace(/\s+/g, " ")]: every whitespace unit is a
    single space and follows no other whitespace. *)
Fixpoint ws_ok (prev_ws : bool) (l : list Z) : Prop :=
  match l with
  | [] => True
  | c :: r => (is_ws c = true -> c = 32 /\ prev_ws = false) /\ ws_ok (is_ws c) r
  end.


(** The callback of [replace(/[^\p{L}\p{N}\s]/gu, " ")], and what a
    normalized string is made of: spaces and lowercase letters or numbers. *)
Definition keep_LNS `{Platform} (c : Z) : Z :=
  if is_letter c || is_number c || is_ws c then c else 32.

Definition norm_cp `{Platform} (c : Z) : Prop :=
  c = 32 \/ ((is_letter c || is_number c) = true /\ lower_fixed c).

(* ------------------------------------------------------------------ *)
(** ** Extractive summary (app3.js lines 652-711)

    The chat model is an oracle: each pass receives some draft text, and
    every property below holds for every draft. *)

(** [draft.split(/\n+/)]: a run of line feeds is one separator. *)
Fixpoint split_nl_aux (cur : jstr) (in_run : bool) (s : jstr) : list jstr :=
  match s with
  | [] => [rev cur]
  | c :: r =>
      if c =? 10 then
        (if in_run then split_nl_aux [] true r else rev cur :: split_nl_aux [] true r)
      else split_nl_aux (c :: cur) false r
  end.
Definition split_nl (s : jstr) : list jstr := split_nl_aux [] false s.

(** [s.replace(/^[-*•]\s*/, "").trim()] *)
Definition strip_marker (s : jstr) : jstr :=
  match s with
  | c :: r => if (c =? 45) || (c =? 42) || (c =? 8226) then drop_ws r else s
  | [] => []
  end.
Definition clean_bullet (s : jstr) : jstr := trim (strip_marker s).

(** [rawBullets]: the cleaned, non-empty lines the excerpt contains. *)
Definition verified_bullets (excerpt draft : jstr) : list jstr :=
  filter (fun s => includes excerpt s) (filter truthy (map clean_bullet (split_nl draft))).

Section Summarizer.
Context `{P : Platform}.

(** [b.toLowerCase().replace(/\s+/g, " ").trim()] *)
Definition bullet_key (b : jstr) : jstr := trim (collapse_ws (toLowerCase b)).

(** The [seen] loop building [uniqueBullets]. *)
Fixpoint dedup_bullets (seen : list jstr) (l : list jstr) : list jstr :=
  match l with
  | [] => []
  | b :: r =>
      let key := bullet_key b in
      if existsb (jeqb key) seen then dedup_bullets seen r
      else b :: dedup_bullets (key :: seen) r
  end.

(** One pass: [uniqueBullets.slice(0, 5)]. *)
Definition summ_pass (excerpt draft : jstr) : list jstr :=
  firstn 5 (dedup_bullets [] (verified_bullets excerpt draft)).

(** What the user is shown once a page with text [rawText] has been fetched,
    given the drafts of the first pass and of the retry. *)
Inductive summary_shown :=
| NothingShown
| BulletsShown (bs : list jstr)   (** the bullets, then "Source: url" *)
| NoQuotableMsg.                  (** "That page didn’t have clear sentences to quote. ..." *)

Definition summarize_page (rawText draft1 draft2 : jstr) : summary_shown :=
  let excerpt := slice_to rawText 8000 in
  match summ_pass excerpt draft1 with
  | _ :: _ => NothingShown
  | [] =>
      let alt := slice rawText 6000 14000 in
      if 500 <? Z.of_nat (length alt) then
        match summ_pass alt draft2 with
        | [] => NoQuotableMsg
        | bs => BulletsShown bs
        end
      else NoQuotableMsg
  end.

(** Spec reading of the duplicate rule: a bullet is dropped exactly when an
    earlier bullet (kept or not) has the same key. *)
Fixpoint keep_first (earlier : list jstr) (l : list jstr) : list jstr :=
  match l with
  | [] => []
  | b :: r =>
      (if existsb (jeqb (bullet_key b)) (map bullet_key earlier) then [] else [b])
      ++ keep_first (earlier ++ [b]) r
  end.

End Summarizer.

(** A page text and a model draft used in the examples: the draft has a
    bullet in another case, a fabricated line and a whitespace variant. *)
Definition sample_page : jstr :=
  js "Mastitis is an infection. It causes pain. Rest helps. mastitis is AN infection.".
Definition sample_draft : jstr :=
  js "- Mastitis is an infection.

* it causes pain.
• It causes pain.
Fabricated line.
-   mastitis is AN infection.".

(* ------------------------------------------------------------------ *)
(** ** Text extraction of /api/fetch (app3.js lines 931-953, 1042-1065)

    The parsed page as the extractor sees it: the [textContent] of every
    node a selector matches, in document order, and the body's
    [textContent] ([""] when there is no body). *)
Record page_dom := {
  query_all : jstr -> list jstr;
  body_text : jstr
}.

Definition fallback_selectors : list jstr :=
  [js "article"; js "main"; js "[role='main']"; js "#content"; js ".content";
   js ".article"; js ".main"; js "section"].


(** The [forEach] over the nodes of one selector, on [(best, bestLen)]. *)
Definition scan_node (acc : jstr * nat) (t : jstr) : jstr * nat :=
  let txt := trim t in
  let len := length (collapse_ws txt) in
  if (snd acc <? len)%nat then (txt, len) else acc.

Definition scan_nodes (acc : jstr * nat) (nodes : list jstr) : jstr * nat :=
  fold_left scan_node nodes acc.

(** The [for] over the selectors with its [break]. *)
Fixpoint scan_selectors (doc : page_dom) (sels : list jstr) (acc : jstr * nat) : jstr * nat :=
  match sels with
  | [] => acc
  | sel :: rest =>
      let acc' := scan_nodes acc (query_all doc sel) in
      if (500 <? snd acc')%nat then acc' else scan_selectors doc rest acc'
  end.

Definition fallbackExtractText (doc : page_dom) : jstr :=
  let (best, bestLen) := scan_selectors doc fallback_selectors ([], 0%nat) in
  if (bestLen =? 0)%nat then collapse_ws (trim (body_text doc)) else best.

(** [fullText]: the Readability text (its [textContent], [""] when it found
    no article), replaced by the fallback when shorter than 400 units. *)
Definition full_text (readText : jstr) (doc : page_dom) : jstr :=
  let t := trim readText in
  if negb (truthy t) || (Z.of_nat (length t) <? 400) then trim (fallbackExtractText doc)
  else t.

(** [Math.min(Number(req.query.maxChars) || 50000, 200000)], for a query
    parameter whose [Number] is the integer [n] ([None]: absent or not a
    number, i.e. NaN). *)
Definition max_chars (maxChars : option Z) : Z :=
  Z.min (match maxChars with Some n => if n =? 0 then 50000 else n | None => 50000 end) 200000.

Inductive extract_reply :=
| Status422                                       (** "Could not extract article" *)
| ArticleJson (text : jstr) (charCount : Z) (truncated : bool).

Definition extract_article (readText : jstr) (doc : page_dom) (maxChars : option Z) : extract_reply :=
  let fullText := full_text readText doc in
  if negb (truthy fullText) || (Z.of_nat (length fullText) <? 200) then Status422
  else
    let m := max_chars maxChars in
    ArticleJson (slice_to fullText m) (Z.of_nat (length fullText))
                (m <? Z.of_nat (length fullText)).



(* ------------------------------------------------------------------ *)
(** ** Fetching a picked source (app3.js lines 616-721)

    The reply of [GET /api/fetch] for a URL as [fetchAndSummarize] sees it. *)
Inductive fetch_resp :=
| RespError (status : Z)      (** [!r.ok] *)
| RespNoText                  (** ok, but [page.text] is missing or empty *)
| RespPage (text : jstr)      (** ok, with text *)
| RespThrows.                 (** [fetch] or [r.json()] rejects *)

Inductive fas_msg :=
| MOpening                    (** "Opening that source…" *)
| MFetchFailed (status : Z)   (** the 415 / 413 / 429 / "HTTP n … Trying the next one…" line *)
| MNoOtherSources             (** "No other sources left. Want me to search again?" *)
| MNotClean                   (** "That page didn’t load cleanly. Let’s try another." *)
| MSummary (text : jstr)      (** the summary of a fetched page *)
| MCouldntFetch.              (** "I couldn’t fetch that page cleanly. ..." (catch) *)

(** The module-level [fetchingNow] flag, the URLs requested from the
    gateway and the chat messages shown. *)
Record fas_state := {
  fetchingNow : bool;
  requested : list jstr;
  shown : list fas_msg
}.

Definition say (st : fas_state) (m : fas_msg) : fas_state :=
  {| fetchingNow := fetchingNow st; requested := requested st; shown := shown st ++ [m] |}.

Section FetchAndSummarize.
Variable resp : jstr -> fetch_resp.
(** the URLs of [lastSearch.items] *)
Variable items : list jstr.

(** One call up to its return; [fuel] bounds the recursion on [index]. *)
Fixpoint fetchAndSummarize (fuel : nat) (url : jstr) (index : nat) (st : fas_state) : fas_state :=
  match fuel with
  | O => st
  | S fuel' =>
      if fetchingNow st then st
      else
        let st1 := {| fetchingNow := true; requested := requested st ++ [url];
                      shown := shown st ++ [MOpening] |} in
        match resp url with
        | RespError s =>
            let st2 := say st1 (MFetchFailed s) in
            match nth_error items (S index) with
            | Some next => fetchAndSummarize fuel' next (S index) st2
            | None => say st2 MNoOtherSources
            end
        | RespNoText =>
            let st2 := say st1 MNotClean in
            match nth_error items (S index) with
            | Some next => fetchAndSummarize fuel' next (S index) st2
            | None => st2
            end
        | RespPage t => say st1 (MSummary t)
        | RespThrows => say st1 MCouldntFetch
        end
  end.

(** The user picks candidate [index]: the call runs, and a call that got
    past the guard resets [fetchingNow] 300 ms after it returned. *)
Definition pick (index : nat) (st : fas_state) : fas_state :=
  match nth_error items index with
  | None => st
  | Some url =>
      let st' := fetchAndSummarize (S (length items)) url index st in
      if fetchingNow st then st'
      else {| fetchingNow := false; requested := requested st'; shown := shown st' |}
  end.

End FetchAndSummarize.

Definition fas_idle : fas_state := {| fetchingNow := false; requested := []; shown := [] |}.

(* ------------------------------------------------------------------ *)
(** ** Result ranking (app3.js lines 494-563, 587-613) *)

Definition hostBoosts : list regex :=
  [rx "(^|\.)who\.int$"; rx "(^|\.)www\.who\.int$"; rx "(^|\.)health\.gov\.za$";
   rx "(^|\.)nice\.org\.uk$"; rx "(^|\.)bmj\.com$"; rx "(^|\.)unicef\.org$"].

Definition hostPenalties : list regex :=
  [rx "(^|\.)help\.unicef\.org$"; rx "(^|\.)apps\.who\.int$";
   rx "(^|\.)platform\.who\.int$"; rx "(^|\.)iarc\.who\.int$"].

Definition rx_healthTopics := rx "\/health-topics\/".
Definition rx_publications := rx "\/publications?(-|\/|$)".
Definition rx_guidance := rx "\/guidance|\/guidelines?".
Definition rx_clinical := rx "\/clinical|\/patients?\/|\/conditions?\/|\/topics?\/|\/fact-?sheet".
Definition rx_press := rx "\/press|\/news|\/stories|\/appeal|\/donate|\/fund|\/campaign".

(** [Object.values(rx)], in insertion order. *)
Definition topic_rxs : list regex :=
  [rxi "\b(breast\s*feed(ing)?|breastfeed(ing)?|lactation|latch(?:ing)?|milk\s*supply|colostrum|mastitis|engorgement|wean(?:ing)?|exclusive)\b";
   rxi "\b(newborn|baby (sleep|feeding)|colic|burp(ing)?|nappy|diaper|jaundice|umbilical|cord care|skin(?:\s*-\s*| )to(?:\s*-\s*| )skin)\b";
   rxi "\b(post(?:partum|natal)|perinatal)\b.*\b(depression|anxiety|pnd)\b|\b(baby\s*blues)\b";
   rxi "\b(trimester|ultrasound|scan|screening|kick count|reduced movements|spotting|cramp|contractions?|waters? (broke|breaking)|swelling|pre[-\s]?eclampsia|gestational|gdm)\b";
   rxi "\b(paracetamol|acetaminophen|ibuprofen|antibiotic|iron|folate|folic acid|prenatal|dose|dosage|mg|medication|medicine|safe to take)\b";
   rxi "\b(birth\s*-?\s*control|contracept|family planning|contraceptive|postpartum\s+contracept)\b";
   rxi "\b(labou?r|contractions?|tim(ing|e) contractions?|waters? (broke|breaking)|mucus plug|bloody show|birth plan|delivery|active labour|latent labour)\b";
   rxi "\b(post(?:partum|natal)|after birth|lochia|perineal|stitches|c-?section recovery|bleeding after birth|postpartum check|afterpains)\b";
   rxi "\b(nutrition|diet|foods?|what (to|can i) eat|eat(ing)? well|supplements?|folate|folic acid|iron|calcium|iodine|vitamin\s*(d|b12)|caffeine|alcohol)\b";
   rxi "\b(warning signs?|red flags?|danger signs?|severe headache|blurred vision|fits|fever|reduced (baby )?movements?|heavy bleeding|severe pain|swelling of (face|hands))\b";
   rxi "\b(antenatal|anc|prenatal|booking|first booking|visit schedule|how often|how many visits|when should i go|clinic card|maternity record)\b";
   rxi "\b(vaccin(e|ation)|immuni[sz]e|immuni[sz]ation|shots?|bcg|opv|ipv|hep(?:atitis)? ?b|dtap|mmr|6 ?weeks|10 ?weeks|14 ?weeks|measles)\b"].

Definition rx_whoHealthTopics := rx "who\.int.*\/health-topics\/".
Definition rx_titleBoost := rx "\b(guideline|recommendation|fact sheet|overview|faq|qa)\b".
Definition rx_titlePenalty := rx "\b(press release|appeal|donate|urgent|breaking)\b".

Section Ranking.
Context `{P : Platform}.

(** The [try] block on [new URL(url)]: nothing is added when it throws. *)
Definition url_score (url : jstr) (s : Z) : Z :=
  match url_parse url with
  | None => s
  | Some u =>
      let host := url_hostname u in
      let s := if existsb (fun r => test r host) hostBoosts then s + 3 else s in
      let s := if existsb (fun r => test r host) hostPenalties then s - 3 else s in
      let depth := length (filter truthy (split_on 47 (url_pathname u))) in
      let s := if (depth <=? 1)%nat then s - 1 else s in
      let path := toLowerCase (url_pathname u) in
      let s := if test rx_healthTopics path then s + 4 else s in
      let s := if test rx_publications path then s + 2 else s in
      let s := if test rx_guidance path then s + 3 else s in
      let s := if test rx_clinical path then s + 2 else s in
      if test rx_press path then s - 4 else s
  end.

(** [scoreResult(it)] while [lastSearch.query] is [lastQuery]. *)
Definition scoreResult (lastQuery : jstr) (it : search_item) : Z :=
  let title := toLowerCase (name it) in
  let url := toLowerCase (url it) in
  let q := toLowerCase lastQuery in
  let s := url_score url 0 in
  let hasAny r := test r q || test r title || test r url in
  let s := fold_left (fun s r =>
             if hasAny r then (if test rx_whoHealthTopics url then s + 4 else s) + 3 else s)
             topic_rxs s in
  let s := if test rx_titleBoost title then s + 2 else s in
  if test rx_titlePenalty title then s - 3 else s.

End Ranking.

(** [items.sort((a, b) => key(b) - key(a))]: [Array.prototype.sort] is
    stable, so the result is the stable sort by decreasing key, which
    insertion sort computes. *)
Fixpoint insert_desc {A} (key : A -> Z) (x : A) (l : list A) : list A :=
  match l with
  | [] => [x]
  | y :: r => if key y <? key x then x :: y :: r else y :: insert_desc key x r
  end.

Definition sort_desc {A} (key : A -> Z) (l : list A) : list A :=
  fold_left (fun acc x => insert_desc key x acc) l [].

(** [startWebSearch] after a successful search with items [items]: the
    items are sorted while [lastSearch] still holds the previous search,
    then [lastSearch] becomes [{query: userText, items}]. *)
Definition startWebSearch `{Platform} (lastQuery userText : jstr) (items : list search_item)
  : jstr * list search_item :=
  let sorted := sort_desc (scoreResult lastQuery) items in
  (userText, sorted).

(** A first search (the initial [lastSearch.query] is [""]) for "mastitis". *)
Definition item_mastitis : search_item :=
  {| name := js "Mastitis"; url := js "https://example.org/a/b"; snippet := [] |}.
Definition item_publication : search_item :=
  {| name := js "Info"; url := js "https://example.org/publications/x"; snippet := [] |}.

(** The order of the ranked list: decreasing [key]. *)
Definition desc_by {A} (key : A -> Z) (a b : A) : Prop := key b <= key a.

(* ------------------------------------------------------------------ *)
(** ** Tone of a message ([classifyTone], app3.js lines 193-205, the same
    in appv1.js lines 274-286)

    None of these regexes has the [i] or the [u] flag.  Without [u] a
    bracket class is a set of code units: a class written with an emoji
    outside the BMP holds the two surrogate halves of that emoji. *)

Inductive tone :=
| TGreeting | THappy | TThankful | TCurious | TConfused
| TSad | TAnxious | TStressed | TAngry | TNeutral.

Definition rx_toneGreetWords := rx "^(hi|hey|hello|heyy|hiya|hie|howzit|yo|sup)\b".
Definition rx_toneGoodDaytime := rx "\b(good (morning|afternoon|evening))\b".
Definition rx_toneGreetEmoji := rx "[👋🙂😊😉✌️👌🤝]".
Definition rx_toneHappyWords := rx "\b(happy|excited|good|great|awesome|yay|relieved|hopeful|proud)\b".
Definition rx_toneLaugh := rx "\b(lol|haha|hehe|lmao)\b".
Definition rx_toneHappyEmoji := rx "[😄😁🤗✨🥳💖❤️‍🔥]".
Definition rx_toneThanksWords := rx "\b(thanks|thank you|appreciate|grateful|cheers)\b".
Definition rx_toneThanksEmoji := rx "[🙏🌸]".
Definition rx_toneQuestionEnd := rx "[?]$".
Definition rx_toneCuriousWords := rx "\b(can you|could you|how do|what is|why|explain|wonder)\b".
Definition rx_toneConfusedWords := rx "\b(confused|unsure|don'?t know|not sure|unclear|huh)\b".
Definition rx_toneConfusedEmoji := rx "[🤔😕]".
Definition rx_toneSadWords := rx "\b(sad|down|low|cry|teary|depressed|blue|heartbroken)\b".
Definition rx_toneSadEmoji := rx "[😔😢😞😭💙]".
Definition rx_toneAnxiousWords := rx "\b(anxious|anxiety|worried|scared|afraid|nervous|panic|panicky)\b".
Definition rx_toneAnxiousEmoji := rx "[😟😰😨😥]".
Definition rx_toneStressedWords := rx "\b(stressed|overwhelmed|burnt out|burned out|exhausted|tired|drained|frazzled)\b".
Definition rx_toneStressedEmoji := rx "[😩😮‍💨😫]".
Definition rx_toneAngryWords := rx "\b(angry|mad|furious|annoyed|irritated|frustrated|fed up)\b".
Definition rx_toneAngryEmoji := rx "[😡🤬👿]".

Definition classifyTone `{Platform} (text : jstr) : tone :=
  let t := trim (toLowerCase text) in
  if test rx_toneGreetWords t || test rx_toneGoodDaytime t || test rx_toneGreetEmoji t then TGreeting else
  if test rx_toneHappyWords t || test rx_toneLaugh t || test rx_toneHappyEmoji t then THappy else
  if test rx_toneThanksWords t || test rx_toneThanksEmoji t then TThankful else
  if test rx_toneQuestionEnd t || test rx_toneCuriousWords t then TCurious else
  if test rx_toneConfusedWords t || test rx_toneConfusedEmoji t then TConfused else
  if test rx_toneSadWords t || test rx_toneSadEmoji t then TSad else
  if test rx_toneAnxiousWords t || test rx_toneAnxiousEmoji t then TAnxious else
  if test rx_toneStressedWords t || test rx_toneStressedEmoji t then TStressed else
  if test rx_toneAngryWords t || test rx_toneAngryEmoji t then TAngry else
  TNeutral.

(* ------------------------------------------------------------------ *)
(** ** Sentence limiter ([tidyToSentenceLimit], app3.js lines 305-315)

    The file declares [tidyToSentenceLimit] twice (lines 132 and 305);
    the second declaration replaces the first, so the calls of
    [paraphraseTopicFromJSON] (line 168) and [chatReply] (line 368) run
    this one. *)

Definition is_sent_end (c : Z) : bool := (c =? ch ".") || (c =? ch "!") || (c =? ch "?").

(** [text.split(/(?<=[\.!?])\s+/)]: the splitter matches at a position
    preceded by [.], [!] or [?] and followed by whitespace, and takes the
    whole whitespace run (greedy, nothing after it); the scan resumes after
    the run, where the look-behind sees whitespace.  [prev_end]: the unit
    before is [.], [!] or [?]; [in_sep]: inside a matched run; [cur]: the
    current piece, reversed. *)
Fixpoint sent_split_aux (prev_end in_sep : bool) (cur : jstr) (s : jstr) : list jstr :=
  match s with
  | [] => [rev cur]
  | c :: r =>
      if is_ws c && (prev_end || in_sep) then
        if in_sep then sent_split_aux false true cur r
        else rev cur :: sent_split_aux false true [] r
      else sent_split_aux (is_sent_end c) false (c :: cur) r
  end.
Definition sent_split (s : jstr) : list jstr := sent_split_aux false false [] s.

(** [parts]: [.map(s => s.trim()).filter(Boolean)]. *)
Definition sentence_parts (text : jstr) : list jstr :=
  filter truthy (map trim (sent_split text)).

Definition rx_endsSentence := rx "[\.!?]$".

Definition tidyToSentenceLimit (text : jstr) (maxSentences : nat) : jstr :=
  if negb (truthy text) then text else
  let kept := join_sp (firstn maxSentences (sentence_parts text)) in
  if test rx_endsSentence kept then kept else kept ++ [ch "."].

(** A piece of text that ends a sentence: its last unit is [.], [!] or [?]. *)
Fixpoint ends_sent (p : jstr) : bool :=
  match p with
  | [] => false
  | [x] => is_sent_end x
  | _ :: r => ends_sent r
  end.

(** The last kept sentence as the limiter leaves it: closed with a period
    when it does not end with [.], [!] or [?]. *)
Definition close_sentence (p : jstr) : jstr :=
  if ends_sent p then p else p ++ [ch "."].

(** No [.], [!] or [?] directly followed by whitespace. *)
Fixpoint no_end_ws (p : jstr) : bool :=
  match p with
  | x :: ((y :: _) as r) => negb (is_sent_end x && is_ws y) && no_end_ws r
  | _ => true
  end.

(** What a sentence of [sentence_parts] looks like, and a list of them in
    which every sentence but the last ends with [.], [!] or [?]. *)
Definition part_ok (p : jstr) : Prop :=
  truthy p = true /\ trim p = p /\ no_end_ws p = true.

Definition parts_ok (l : list jstr) : Prop :=
  Forall part_ok l /\ Forall (fun p => ends_sent p = true) (removelast l).

(* ------------------------------------------------------------------ *)
(** ** Chat memory ([pushHistory], [addMsg], [recentBannedPhrases];
    app3.js lines 60-76, 294-303) *)

Inductive role := RUser | RAssistant.
Record hist_msg := { role_of : role; content : jstr }.

(** [while (chatHistory.length > 6) chatHistory.shift();] (each round
    removes one message, so [length h] rounds suffice). *)
Fixpoint shift_while_long {A} (fuel : nat) (h : list A) : list A :=
  match fuel with
  | O => h
  | S f => if (6 <? length h)%nat then shift_while_long f (tl h) else h
  end.

Definition pushHistory (h : list hist_msg) (m : hist_msg) : list hist_msg :=
  let h' := h ++ [m] in shift_while_long (length h') h'.

(** [addMsg(text, who)] once the [#chat] element exists. *)
Definition addMsg (h : list hist_msg) (text : jstr) (who_user : bool) : list hist_msg :=
  pushHistory h {| role_of := if who_user then RUser else RAssistant; content := text |}.

(** [arr.slice(-n)] *)
Definition last_n {A} (n : nat) (l : list A) : list A := skipn (length l - n) l.

Definition stock_phrases : list jstr :=
  [js "it’s okay to feel overwhelmed"; js "it's okay to feel overwhelmed";
   js "what’s on your mind"; js "what's on your mind";
   js "i’m here for you"; js "i'm here for you";
   js "that sounds really hard"].

Definition recentBannedPhrases `{Platform} (chatHistory : list hist_msg) : list jstr :=
  let recent := map (fun m => toLowerCase (content m)) (last_n 4 chatHistory) in
  filter (fun p => existsb (fun r => includes r p) recent) stock_phrases.

(* ------------------------------------------------------------------ *)
(** ** A conversation: the submit handler over a sequence of messages *)

Fixpoint submit_all `{Platform} (cat : list topic) (st : session) (msgs : list jstr)
  : session * list (list effect) :=
  match msgs with
  | [] => (st, [])
  | m :: ms =>
      let (st1, es) := submit cat st m in
      let (st2, ess) := submit_all cat st1 ms in
      (st2, es :: ess)
  end.

(* ------------------------------------------------------------------ *)
(** ** Fetching the page in /api/fetch ([fetchHTMLWithRetry] and the
    handler after its guards, app3.js lines 912-930 and 1011-1072)

    A response of the site as axios gives it ([validateStatus] accepts
    every status), or the error axios throws: its message and the status
    of its response, if any. *)
Record upstream := {
  up_status : Z;
  up_ctype : jstr;     (** [String(resp.headers["content-type"] || "")] *)
  up_data : jstr
}.

Inductive get_result :=
| GotResp (r : upstream)
| GetThrew (message : jstr) (status : option Z).

(** [get false] is the first GET, [get true] the retry whose [Referer] is
    the page's origin ([new URL(url)] succeeds: the URL passed
    [hostIsAllowed]).  The requests made, by that flag, and the answer
    used. *)
Definition fetchHTMLWithRetry (get : bool -> get_result) : list bool * get_result :=
  match get false with
  | GotResp r =>
      if existsb (Z.eqb (up_status r)) [403; 406; 451] then ([false; true], get true)
      else ([false], GotResp r)
  | GetThrew m s => ([false], GetThrew m s)
  end.

Inductive fetch_answer :=
| FError (code : Z)                                   (** [res.status(code).json({ error ... })] *)
| FArticle (text : jstr) (charCount : Z) (truncated : bool).   (** [res.json({ title, text, meta })] *)

(** The [if (resp.status >= 400)] block. *)
Definition upstream_error_code (s : Z) : Z :=
  if s =? 403 then 403 else if s =? 404 then 404 else if s =? 429 then 429
  else if s =? 503 then 503 else 500.

(** From [fetchHTMLWithRetry(url)] to the response.  [parse] stands for
    the pre-trimming regexes, JSDOM and Readability: the Readability text
    and the parsed page of an HTML body. *)
Definition fetch_after_guards `{Platform} (url : jstr) (get : bool -> get_result)
    (parse : jstr -> jstr * page_dom) (maxChars : option Z) : list bool * fetch_answer :=
  let (reqs, o) := fetchHTMLWithRetry get in
  (reqs,
   match o with
   | GetThrew msg status =>
       let m := toLowerCase msg in
       if includes m (js "maxcontentlength") || includes m (js "maxbodylength") then FError 413
       else FError (match status with Some c => if c =? 0 then 500 else c | None => 500 end)
   | GotResp r =>
       if 400 <=? up_status r then FError (upstream_error_code (up_status r)) else
       let ctype := up_ctype r in
       let lowerUrl := toLowerCase url in
       if includes ctype (js "application/pdf") || ends_with lowerUrl (js ".pdf") then FError 415 else
       if negb (includes ctype (js "text/html")) && negb (includes ctype (js "application/xhtml+xml"))
       then FError 415 else
       let (readText, doc) := parse (up_data r) in
       match extract_article readText doc maxChars with
       | Status422 => FError 422
       | ArticleJson t n tr => FArticle t n tr
       end
   end).

(* ------------------------------------------------------------------ *)
(** ** The appv1.js handler after its consent flow (lines 779-876)

    appv1.js runs the same social check-in, greeting and consent steps as
    app3.js, then asks the model router ([routeWithLLM]) for a route, a
    model completion parsed as JSON with defaults: [action] (["basic_chat"]
    when missing), [topic_hint] (a string, or [null]: [None]) and
    [needs_sources]. *)
Record route := { action : jstr; topic_hint : option jstr; needs_sources : bool }.

Definition rx_v1_hardSafety := rxi "\b(kill myself|end my life|suicide|harm myself)\b".

Inductive v1_effect :=
| V1RouteLLM (text : jstr)           (** [await routeWithLLM(text)]: a model completion *)
| V1Say (r : reply)                  (** a reply with the same text as in app3.js *)
| V1SayRouteEmergency                (** "This sounds urgent. Please seek care immediately ..." *)
| V1SayRouteClarify                  (** "got it — what part would you like help with exactly?" *)
| V1SayAskSources                    (** "Want me to check trusted sources (WHO, SA DoH, UNICEF)?" *)
| V1AnswerTopic (p fallback : jstr)  (** [answerFromTopic(path, fallbackQuery)] *)
| V1WebSearch (q : jstr)             (** [startWebSearch] *)
| V1ReferenceError (fn : jstr).      (** a call of [fn], a function defined nowhere in
                                         appv1.js (an ES module): [suggestNearestLocalTopics]
                                         or [chatReply].  The call throws a ReferenceError
                                         and the handler stops there *)

Section V1Handler.
Context `{P : Platform}.
Variable cat : list topic.

(** [handleInfoLike] of appv1.js (lines 432-456): its local map has the
    same twelve entries as [intentToTopic]. *)
Definition v1_handleInfoLike (userText : jstr) (scopedIntent : intent) : list v1_effect :=
  match findTopicForMessage cat userText with
  | Some t => [V1AnswerTopic (path t) userText]
  | None =>
      match intentToTopic scopedIntent with
      | Some p => [V1AnswerTopic p userText]
      | None => [V1WebSearch userText]
      end
  end.

(** Steps 3 to 7 (lines 837-878); the new [awaitingSearchConsent] when it
    is set, and the effects.  Step 5 is skipped: its [typeof] guards fail,
    [asksForIdeas] and [friendlyIdeas] being defined nowhere; step 7 calls
    [chatReply], also defined nowhere in appv1.js, and throws. *)
Definition v1_intent_flow (searchOptIn : bool) (text : jstr) : option jstr * list v1_effect :=
  let i := detectIntent text in
  match i with
  | Emergency => (None, [V1Say Crisis])
  | Gratitude => (None, [V1Say Welcome])
  | Goodbye => (None, [V1Say Farewell])
  | Clarify => (None, [V1Say AskWhichPart])
  | Followup => (None, [V1Say GoDeeper])
  | CareNav => (None, [V1Say CareNavReply])
  | Smalltalk => (None, [V1Say SmalltalkReply])
  | _ =>
      match findTopicForMessage cat text with
      | Some t => (None, [V1AnswerTopic (path t) text])
      | None =>
          if isInfoIntent i then
            match intentToTopic i with
            | Some p => (None, [V1AnswerTopic p text])
            | None =>
                if searchOptIn then (None, v1_handleInfoLike text i)
                else (Some text, [V1Say AskConsent])
            end
          else (None, [V1ReferenceError (js "chatReply")])
      end
  end.

(** [topicsIndex.find(t => t.title.toLowerCase().includes(hinted))]. *)
Definition v1_hinted_topic (hint : option jstr) : option topic :=
  let hinted := toLowerCase (match hint with Some h => h | None => [] end) in
  find (fun t => includes (toLowerCase (title t)) hinted) cat.

Definition v1_dispatch (searchOptIn : bool) (text : jstr) (rt : route)
  : option jstr * list v1_effect :=
  let call := V1RouteLLM text in
  let with_call '(pending, es) := (pending, call :: es) in
  if test rx_v1_hardSafety text then (None, [call; V1Say Crisis]) else
  let a := action rt in
  if jeqb a (js "greeting") then (None, [call; V1Say GreetNew]) else
  if jeqb a (js "gratitude") then (None, [call; V1Say Welcome]) else
  if jeqb a (js "goodbye") then (None, [call; V1Say Farewell]) else
  if jeqb a (js "emergency") then (None, [call; V1SayRouteEmergency]) else
  if jeqb a (js "clarify") then (None, [call; V1SayRouteClarify]) else
  if jeqb a (js "basic_chat") then (None, [call; V1ReferenceError (js "chatReply")]) else
  let info_local :=
    jeqb a (js "info_local") || (jeqb a (js "info_search") && negb (needs_sources rt)) in
  let local :=
    if info_local then
      let topic := match v1_hinted_topic (topic_hint rt) with
                   | Some t => Some t
                   | None => findTopicForMessage cat text
                   end in
      match topic with
      | Some t => Some (None, [call; V1AnswerTopic (path t) text])
      | None => if negb (needs_sources rt) then Some (None, [call; V1ReferenceError (js "suggestNearestLocalTopics")]) else None
      end
    else None in
  match local with
  | Some r => r
  | None =>
      if jeqb a (js "info_search") && needs_sources rt then
        if searchOptIn then (None, [call; V1WebSearch text])
        else (Some text, [call; V1SayAskSources])
      else with_call (v1_intent_flow searchOptIn text)
  end.

End V1Handler.

(* ------------------------------------------------------------------ *)
(** ** Sample data for the further properties *)

Definition topic_sleep : topic :=
  {| title := js "Newborn sleep"; keywords := [js "sleep"; js "nap"]; aliases := []; tags := [];
     path := js "packs/sleep.json" |}.
Definition topic_feeding : topic :=
  {| title := js "Breastfeeding"; keywords := [js "latch"; js "feed"]; aliases := []; tags := [];
     path := js "packs/feeding.json" |}.
Definition st_pending : session :=
  {| searchOptIn := false; awaitingSearchConsent := Some (js "what is the weather?");
     lastGreetTurn := -999; histLen := 3 |}.
Definition st_five : session :=
  {| searchOptIn := false; awaitingSearchConsent := None; lastGreetTurn := -999; histLen := 5 |}.

Definition route_basic_chat : route :=
  {| action := js "basic_chat"; topic_hint := None; needs_sources := false |}.

(* ------------------------------------------------------------------ *)
(** ** Spacing of a normalized string *)

(** [sp_ok b u]: every space of [u] is single, not first when [b], and [u]
    does not end in a space; [b] says that the previous unit was a space or
    that [u] starts the string. *)
Fixpoint sp_ok (b : bool) (u : list Z) : Prop :=
  match u with
  | [] => b = false
  | c :: r => (c = 32 -> b = false) /\ sp_ok (c =? 32) r
  end.

(* ================================================================== *)
(** * Theorems *)







(** The same gap through the greeting test: the emoji class [[👋🙂😊😉]] has
    no [u] flag, so it holds the surrogate halves and any emoji whose high
    surrogate is U+D83D (here 😭) counts as a greeting. *)
Example crisis_with_emoji_greeted :
  emergency_lexicon (js "I want to end my life 😭") = true
  /\ snd (submit [] idle_session (js "I want to end my life 😭")) = [Say GreetNew].
Proof. vm_compute. auto. Qed.







(** *** Strings: equality, prefixes and suffixes *)

Lemma jeqb_eq (a b : jstr) : jeqb a b = true <-> a = b.
Proof.
  revert b; induction a as [|x a IH]; intros [|y b]; simpl; split; intro E;
    try discriminate; try reflexivity.
  - apply andb_true_iff in E as [E1 E2]. apply Z.eqb_eq in E1.
    apply IH in E2. subst. reflexivity.
  - injection E as -> ->. rewrite Z.eqb_refl. simpl. apply IH. reflexivity.
Qed.

Lemma prefixb_spec (p s : jstr) : prefixb p s = true <-> exists t, s = p ++ t.
Proof.
  revert s; induction p as [|x p IH]; intros s; simpl.
  - split; [intros _; exists s; reflexivity | reflexivity].
  - destruct s as [|y s]; split.
    + discriminate.
    + intros [t E]. discriminate.
    + intros E. apply andb_true_iff in E as [E1 E2]. apply Z.eqb_eq in E1. subst.
      apply IH in E2 as [t ->]. exists t. reflexivity.
    + intros [t E]. injection E as -> E. rewrite Z.eqb_refl. simpl.
      apply IH. exists t. exact E.
Qed.

Lemma ends_with_spec (s x : jstr) : ends_with s x = true <-> exists pre, s = pre ++ x.
Proof.
  unfold ends_with. rewrite prefixb_spec. split.
  - intros [t E]. exists (rev t).
    rewrite <- (rev_involutive s), E, rev_app_distr, rev_involutive. reflexivity.
  - intros [pre ->]. exists (rev pre). rewrite rev_app_distr. reflexivity.
Qed.

Lemma hostIsAllowed_spec `{Platform} (allow : list jstr) (u : jstr) :
  hostIsAllowed allow u = true <-> in_boundary allow u.
Proof.
  unfold hostIsAllowed, in_boundary. destruct (url_parse u) as [r|].
  - rewrite existsb_exists. split.
    + intros [d [Hin Hd]]. exists r, d. split; [reflexivity|]. split; [exact Hin|].
      apply orb_true_iff in Hd as [Hd|Hd].
      * left. apply jeqb_eq. exact Hd.
      * right. apply ends_with_spec. exact Hd.
    + intros [r' [d [E [Hin Hd]]]]. injection E as <-. exists d. split; [exact Hin|].
      apply orb_true_iff. destruct Hd as [Hd|Hd].
      * left. apply jeqb_eq. exact Hd.
      * right. apply ends_with_spec. exact Hd.
  - split; [discriminate|]. intros [r' [d [E _]]]. discriminate.
Qed.

(** C2 (amended).  A URL is inside the trust boundary exactly when its
    parsed, lowercased hostname equals an allow-list entry or ends with
    "." followed by one.  A [/api/fetch] request admitted past the
    concurrency ceiling with a non-empty URL outside the boundary is
    answered 403 "Domain not allowed" before any network request, the
    counter back where it was; and every item of a [/api/search] answer has
    a URL inside the boundary, whatever the upstream engine returned. *)
Theorem C2_trust_boundary `{Platform} (allow : list jstr) :
  (forall u, hostIsAllowed allow u = true <-> in_boundary allow u)
  /\ (forall MAX active u, active < MAX -> u <> [] -> ~ in_boundary allow u ->
      fetch_enter allow MAX active (Some u) = (active, Answered 403 (js "Domain not allowed")))
  /\ (forall gc q upstream items,
      api_search allow gc q upstream = SearchOk items ->
      Forall (fun it => in_boundary allow (url it)) items).
Proof.
  split; [apply hostIsAllowed_spec|]. split.
  - intros MAX active u Hlt Hne Hout. unfold fetch_enter.
    destruct (Z.leb_spec MAX active) as [Hle|_]; [lia|].
    destruct u as [|c r]; [contradiction|].
    destruct (hostIsAllowed allow (c :: r)) eqn:Ha.
    + exfalso. apply Hout. apply hostIsAllowed_spec. exact Ha.
    + simpl. f_equal. lia.
  - intros gc q upstream items E. unfold api_search in E.
    destruct allow; [discriminate|]. destruct gc; [|discriminate].
    destruct q as [[|c q]|]; try discriminate.
    destruct upstream as [raw|code]; [|discriminate].
    injection E as <-. apply Forall_map. apply Forall_forall.
    intros it Hin. apply filter_In in Hin as [_ Hin]. simpl.
    apply hostIsAllowed_spec. exact Hin.
Qed.

(** C2 witness: with "who.int" allowed and nothing in flight,
    https://who.int.evil.com is refused with 403, while
    https://www.who.int/x is inside the boundary. *)
Lemma C2_witness :
  fetch_enter [js "who.int"] 2 0 (Some (js "https://who.int.evil.com"))
    = (0, Answered 403 (js "Domain not allowed"))
  /\ in_boundary [js "who.int"] (js "https://www.who.int/x").
Proof.
  split.
  - apply (proj1 (proj2 (C2_trust_boundary [js "who.int"]))).
    + lia.
    + discriminate.
    + rewrite <- hostIsAllowed_spec. vm_compute. discriminate.
  - apply (proj1 (C2_trust_boundary [js "who.int"])). vm_compute. reflexivity.
Defined.

(** C2 counterexample: at the ceiling (2 of 2 fetches running) a URL
    outside the boundary is answered 429 busy, not 403. *)
Lemma C2_counterexample :
  hostIsAllowed [js "who.int"] (js "https://who.int.evil.com") = false
  /\ fetch_enter [js "who.int"] 2 2 (Some (js "https://who.int.evil.com"))
     = (2, Answered 429 (js "Fetcher is busy, please try again")).
Proof. vm_compute. auto. Qed.

(** *** The fetch counter *)

Definition gw_inv (MAX : Z) (s : gw_state) : Prop :=
  activeFetches s = Z.of_nat (length (inflight s)) /\ activeFetches s <= MAX.

Lemma length_remove_one (x : nat) (l : list nat) :
  In x l -> S (length (remove_one x l)) = length l.
Proof.
  induction l as [|y l IH]; simpl; [contradiction|].
  intros [<-|Hin].
  - rewrite Nat.eqb_refl. reflexivity.
  - destruct (Nat.eqb x y) eqn:E; [reflexivity|]. simpl. rewrite IH; auto.
Qed.

Lemma gw_step_inv `{Platform} (allow : list jstr) (MAX : Z) (s : gw_state) (ev : gw_event) :
  gw_inv MAX s -> gw_inv MAX (gw_step allow MAX s ev).
Proof.
  intros [Hlen Hle]. destruct ev as [id url_q|id o]; simpl.
  - unfold fetch_enter.
    destruct (Z.leb_spec MAX (activeFetches s)) as [Hge|Hlt].
    + split; assumption.
    + destruct url_q as [[|c r]|].
      * split; simpl; lia.
      * destruct (negb (hostIsAllowed allow (c :: r))).
        -- split; simpl; lia.
        -- split; simpl; [rewrite Hlen; lia | lia].
      * split; simpl; lia.
  - destruct (existsb (Nat.eqb id) (inflight s)) eqn:E; [|split; assumption].
    apply existsb_exists in E as [y [Hin Hy]]. apply Nat.eqb_eq in Hy. subst y.
    pose proof (length_remove_one _ _ Hin) as Hl.
    split; simpl; [|lia].
    rewrite Hlen, <- Hl. lia.
Qed.

(** C4.  Along any sequence of arrivals and completions, with a ceiling
    [MAX >= 0], the counter equals the number of requests past the
    admission check and still running, and never exceeds [MAX]; a request
    arriving at the ceiling is answered 429 busy and changes nothing (it is
    not queued); an admitted request that finishes, by a response or by an
    exception, lowers the counter by exactly one, once. *)
Theorem C4_fetch_ceiling `{Platform} (allow : list jstr) (MAX : Z) :
  0 <= MAX ->
  (forall evs, gw_inv MAX (gw_run allow MAX evs))
  /\ (forall s id url_q, MAX <= activeFetches s ->
      fetch_enter allow MAX (activeFetches s) url_q
        = (activeFetches s, Answered 429 (js "Fetcher is busy, please try again"))
      /\ gw_step allow MAX s (Arrive id url_q) = s)
  /\ (forall s id o, In id (inflight s) ->
      activeFetches (gw_step allow MAX s (Finish id o)) = activeFetches s - 1
      /\ length (inflight (gw_step allow MAX s (Finish id o))) = pred (length (inflight s))).
Proof.
  intros HMAX. split; [|split].
  - intros evs. unfold gw_run.
    assert (Hi : gw_inv MAX gw_init) by (split; simpl; lia).
    revert Hi. generalize gw_init. induction evs as [|ev evs IH]; intros s Hi; simpl.
    + exact Hi.
    + apply IH. apply gw_step_inv. exact Hi.
  - intros s id url_q Hge. unfold fetch_enter.
    destruct (Z.leb_spec MAX (activeFetches s)) as [_|Hlt]; [|lia].
    split; [reflexivity|]. simpl. unfold fetch_enter.
    destruct (Z.leb_spec MAX (activeFetches s)) as [_|Hlt]; [|lia].
    destruct s; reflexivity.
  - intros s id o Hin. simpl.
    assert (E : existsb (Nat.eqb id) (inflight s) = true).
    { apply existsb_exists. exists id. split; [exact Hin | apply Nat.eqb_refl]. }
    rewrite E. split; [destruct o; reflexivity|].
    simpl. rewrite <- (length_remove_one _ _ Hin). reflexivity.
Qed.

(** C4 witness: ceiling 2, three requests arrive, the third is refused,
    one finishes with an exception, and the counter is back to 1. *)
Lemma C4_witness :
  gw_inv 2 (gw_run [js "who.int"] 2
              [Arrive 1 (Some (js "https://www.who.int/a"));
               Arrive 2 (Some (js "https://www.who.int/b"));
               Arrive 3 (Some (js "https://www.who.int/c"));
               Finish 1 (BodyThrew 500)])
  /\ activeFetches (gw_run [js "who.int"] 2
              [Arrive 1 (Some (js "https://www.who.int/a"));
               Arrive 2 (Some (js "https://www.who.int/b"));
               Arrive 3 (Some (js "https://www.who.int/c"));
               Finish 1 (BodyThrew 500)]) = 1.
Proof.
  split.
  - apply (proj1 (C4_fetch_ceiling [js "who.int"] 2 ltac:(lia))).
  - vm_compute. reflexivity.
Defined.

(** *** The resolver *)

Lemma overlap_score_nonneg `{Platform} (qT : list jstr) (t : topic) :
  0 <= overlap_score qT t.
Proof. unfold overlap_score, tokenOverlap. lia. Qed.

Lemma max_overlap_nonneg `{Platform} (qT : list jstr) (cat : list topic) :
  0 <= max_overlap qT cat.
Proof. unfold max_overlap. induction cat as [|t cat IH]; simpl; lia. Qed.

(** The fuzzy loop started from [(b0, s0)] ends with the best score of
    the catalog and the first topic reaching it, unless [s0] is already
    at least that score. *)
Lemma best_overlap_fold `{Platform} (qT : list jstr) (cat : list topic) :
  forall b0 s0, 0 <= s0 ->
  fold_left (fun '(best, bestScore) t =>
               let score := overlap_score qT t in
               if bestScore <? score then (Some t, score) else (best, bestScore))
            cat (b0, s0)
  = if s0 <? max_overlap qT cat
    then (find (fun t => overlap_score qT t =? max_overlap qT cat) cat, max_overlap qT cat)
    else (b0, s0).
Proof.
  induction cat as [|t cat IH]; intros b0 s0 Hs0; simpl.
  - unfold max_overlap; simpl. destruct (Z.ltb_spec s0 0); [lia | reflexivity].
  - unfold max_overlap in *. simpl.
    set (M' := fold_right Z.max 0 (map (overlap_score qT) cat)) in *.
    pose proof (overlap_score_nonneg qT t) as Hst.
    destruct (Z.ltb_spec s0 (overlap_score qT t)) as [Hlt|Hge].
    + rewrite IH by lia.
      destruct (Z.ltb_spec (overlap_score qT t) M') as [Hlt'|Hge'].
      * rewrite Z.max_r by lia.
        destruct (Z.ltb_spec s0 M') as [_|]; [|lia].
        destruct (Z.eqb_spec (overlap_score qT t) M'); [lia|]. reflexivity.
      * rewrite Z.max_l by lia.
        destruct (Z.ltb_spec s0 (overlap_score qT t)) as [_|]; [|lia].
        rewrite Z.eqb_refl. reflexivity.
    + rewrite IH by lia.
      destruct (Z.ltb_spec s0 M') as [Hlt'|Hge'].
      * rewrite Z.max_r by lia.
        destruct (Z.ltb_spec s0 M') as [_|]; [|lia].
        destruct (Z.eqb_spec (overlap_score qT t) M'); [lia|]. reflexivity.
      * destruct (Z.ltb_spec s0 (Z.max (overlap_score qT t) M')); [lia|]. reflexivity.
Qed.

(** C6.  [findTopicForMessage] is the resolver of the spec: title
    containment, then keyword/alias/tag containment, each taking the first
    topic in catalog order; then the largest token-set overlap, accepted
    only from 2 on, ties going to the first topic that reaches it, and
    [None] otherwise.  Both are functions of the text and the catalog. *)
Theorem C6_resolver_refines_spec `{Platform} (cat : list topic) (text : jstr) :
  findTopicForMessage cat text = resolve_spec cat text.
Proof.
  unfold findTopicForMessage, resolve_spec.
  destruct (find (title_hit (normalize text)) cat); [reflexivity|].
  destruct (find (kw_hit (normalize text)) cat); [reflexivity|].
  unfold best_overlap. rewrite best_overlap_fold by lia.
  pose proof (max_overlap_nonneg (tokenize (normalize text)) cat).
  destruct (Z.ltb_spec 0 (max_overlap (tokenize (normalize text)) cat)).
  - reflexivity.
  - destruct (Z.leb_spec 2 (max_overlap (tokenize (normalize text)) cat)); [lia|].
    destruct (Z.leb_spec 2 0); [lia|]. reflexivity.
Qed.

(** The tie-break of the fuzzy step: the topic chosen reaches the maximum
    and every topic before it in the catalog scores less. *)
Lemma find_first_max (f : topic -> Z) (M : Z) (cat : list topic) (t : topic) :
  find (fun u => f u =? M) cat = Some t ->
  exists pre post, cat = pre ++ t :: post /\ f t = M /\ Forall (fun u => f u <> M) pre.
Proof.
  induction cat as [|u cat IH]; simpl; [discriminate|].
  destruct (Z.eqb_spec (f u) M) as [E|E].
  - intros [= <-]. exists [], cat. auto.
  - intros Hf. destruct (IH Hf) as [pre [post [-> [Ht Hpre]]]].
    exists (u :: pre), post. split; [reflexivity|]. split; [exact Ht|]. constructor; auto.
Qed.

(** *** UTF-16 and the normalization *)

Lemma is_high_iff (x : Z) : is_high x = true <-> 55296 <= x <= 56319.
Proof. unfold is_high. rewrite andb_true_iff, !Z.leb_le. tauto. Qed.

Lemma is_low_iff (x : Z) : is_low x = true <-> 56320 <= x <= 57343.
Proof. unfold is_low. rewrite andb_true_iff, !Z.leb_le. tauto. Qed.

Lemma is_surrogate_iff (x : Z) : is_surrogate x = true <-> 55296 <= x <= 57343.
Proof. unfold is_surrogate. rewrite andb_true_iff, !Z.leb_le. tauto. Qed.

Lemma bool_false_iff (b : bool) (Q : Prop) : (b = true <-> Q) -> (b = false <-> ~ Q).
Proof.
  intros H. split.
  - intros -> HQ. apply H in HQ. discriminate.
  - intros HnQ. destruct b; [exfalso; apply HnQ, H; reflexivity | reflexivity].
Qed.

(** Surrogate range tests to and from arithmetic. *)
Ltac zb :=
  repeat match goal with
  | H : is_high _ = true |- _ => apply is_high_iff in H
  | H : is_low _ = true |- _ => apply is_low_iff in H
  | H : is_surrogate _ = true |- _ => apply is_surrogate_iff in H
  | H : is_high _ = false |- _ => apply (bool_false_iff _ _ (is_high_iff _)) in H
  | H : is_low _ = false |- _ => apply (bool_false_iff _ _ (is_low_iff _)) in H
  | H : is_surrogate _ = false |- _ => apply (bool_false_iff _ _ (is_surrogate_iff _)) in H
  end;
  try match goal with
  | |- is_high _ = true => apply is_high_iff
  | |- is_low _ = true => apply is_low_iff
  | |- is_surrogate _ = true => apply is_surrogate_iff
  | |- is_high _ = false => apply (bool_false_iff _ _ (is_high_iff _))
  | |- is_low _ = false => apply (bool_false_iff _ _ (is_low_iff _))
  | |- is_surrogate _ = false => apply (bool_false_iff _ _ (is_surrogate_iff _))
  end; try lia.

Lemma ws_not_surrogate (u : Z) : 55296 <= u <= 57343 -> is_ws u = false.
Proof.
  intros Hu. unfold is_ws.
  repeat match goal with
  | |- context [u =? ?b] => replace (u =? b) with false by (symmetry; apply Z.eqb_neq; lia)
  end.
  destruct (Z.leb_spec 8192 u); destruct (Z.leb_spec u 8202); simpl; try lia; reflexivity.
Qed.

Lemma ws_bmp (u : Z) : is_ws u = true -> 0 <= u < 65536.
Proof.
  unfold is_ws. intros H.
  repeat (apply orb_true_iff in H; destruct H as [H|H]);
    try (apply Z.eqb_eq in H; lia).
  apply andb_true_iff in H as [H1 H2]. apply Z.leb_le in H1. apply Z.leb_le in H2. lia.
Qed.

Lemma no_pair_cons (x : Z) (l : list Z) :
  no_pair (x :: l) = negb (is_high x && first_low l) && no_pair l.
Proof. destruct l; simpl; [destruct (is_high x); reflexivity | reflexivity]. Qed.

Lemma decode_cons (u : Z) (rest : jstr) :
  decode (u :: rest) =
  if is_high u then
    match rest with
    | v :: r => if is_low v then (65536 + (u - 55296) * 1024 + (v - 56320)) :: decode r
                else u :: decode rest
    | [] => [u]
    end
  else u :: decode rest.
Proof. reflexivity. Qed.

Lemma first_low_decode (s : jstr) : first_low (decode s) = first_low s.
Proof.
  destruct s as [|u rest]; [reflexivity|]. rewrite decode_cons.
  destruct (is_high u) eqn:Hh; [|reflexivity].
  destruct rest as [|v r]; [reflexivity|].
  destruct (is_low v) eqn:Hl; [|reflexivity].
  cbn [first_low app]. transitivity false; [|symmetry]; zb.
Qed.

Lemma decode_facts (n : nat) (s : jstr) :
  (length s <= n)%nat ->
  no_pair (decode s) = true /\ (units_ok s -> Forall valid_cp (decode s)).
Proof.
  revert s; induction n as [|n IH]; intros s Hlen.
  - destruct s; [split; [reflexivity | constructor] | simpl in Hlen; lia].
  - destruct s as [|u rest]; [split; [reflexivity | constructor]|].
    simpl in Hlen. rewrite decode_cons.
    destruct (is_high u) eqn:Hh.
    + destruct rest as [|v r].
      * split; [reflexivity|]. intros Hu. inversion Hu; subst.
        constructor; [unfold valid_cp; lia | constructor].
      * destruct (is_low v) eqn:Hl.
        -- simpl in Hlen. destruct (IH r ltac:(lia)) as [IHp IHv].
           split.
           ++ rewrite no_pair_cons, IHp.
              replace (is_high (65536 + (u - 55296) * 1024 + (v - 56320))) with false
                by (symmetry; zb). reflexivity.
           ++ intros Hu. inversion Hu as [|? ? Hu1 Hu']; subst.
              inversion Hu' as [|? ? Hv1 Hr]; subst.
              constructor; [|apply IHv; exact Hr].
              unfold valid_cp. zb.
        -- destruct (IH (v :: r) ltac:(lia)) as [IHp IHv].
           split.
           ++ rewrite no_pair_cons, IHp, first_low_decode. simpl. rewrite Hl.
              destruct (is_high u); reflexivity.
           ++ intros Hu. inversion Hu; subst.
              constructor; [unfold valid_cp; lia | apply IHv; assumption].
    + destruct (IH rest ltac:(lia)) as [IHp IHv]. split.
      * rewrite no_pair_cons, IHp, Hh. reflexivity.
      * intros Hu. inversion Hu; subst.
        constructor; [unfold valid_cp; lia | apply IHv; assumption].
Qed.

Lemma units_small (c : Z) : 0 <= c < 65536 -> units_of c = [c].
Proof. intros H. unfold units_of. destruct (Z.ltb_spec c 65536); [reflexivity | lia]. Qed.

Lemma units_big (c : Z) : 65536 <= c < 1114112 ->
  exists hi lo, units_of c = [hi; lo] /\ 55296 <= hi <= 56319 /\ 56320 <= lo <= 57343 /\
                65536 + (hi - 55296) * 1024 + (lo - 56320) = c.
Proof.
  intros H. unfold units_of. destruct (Z.ltb_spec c 65536); [lia|].
  pose proof (Z.div_mod (c - 65536) 1024 ltac:(lia)) as Hd.
  pose proof (Z.mod_pos_bound (c - 65536) 1024 ltac:(lia)) as Hm.
  set (q := (c - 65536) / 1024) in *. set (r := (c - 65536) mod 1024) in *.
  exists (55296 + q), (56320 + r). repeat split; lia.
Qed.

Lemma encode_cons (c : Z) (k : list Z) : encode (c :: k) = units_of c ++ encode k.
Proof. reflexivity. Qed.

Lemma encode_app (k1 k2 : list Z) : encode (k1 ++ k2) = encode k1 ++ encode k2.
Proof. unfold encode. rewrite flat_map_app. reflexivity. Qed.

Lemma first_low_encode (k : list Z) :
  Forall valid_cp k -> first_low (encode k) = first_low k.
Proof.
  intros Hk. destruct k as [|c k]; [reflexivity|]. inversion Hk; subst.
  unfold valid_cp in *. rewrite encode_cons.
  destruct (Z.ltb_spec c 65536).
  - rewrite units_small by lia. reflexivity.
  - destruct (units_big c ltac:(lia)) as (hi & lo & -> & Hhi & _).
    cbn [first_low app]. transitivity false; [|symmetry]; zb.
Qed.

Lemma decode_encode (k : list Z) :
  Forall valid_cp k -> no_pair k = true -> decode (encode k) = k.
Proof.
  induction k as [|c k IH]; intros Hk Hp; [reflexivity|].
  inversion Hk as [|? ? Hc Hk']; subst. unfold valid_cp in Hc.
  rewrite no_pair_cons in Hp. apply andb_true_iff in Hp as [Hp1 Hp2].
  rewrite encode_cons.
  destruct (Z.ltb_spec c 65536).
  - rewrite units_small by lia. simpl app. rewrite decode_cons.
    destruct (is_high c) eqn:Hh.
    + cbn [andb] in Hp1.
      destruct (encode k) as [|v r] eqn:He.
      * destruct k as [|c' k']; [reflexivity|].
        rewrite encode_cons in He.
        destruct (units_of c') eqn:Hu; [|discriminate].
        unfold units_of in Hu. destruct (c' <? 65536); discriminate.
      * assert (Hv : is_low v = false).
        { pose proof (first_low_encode k Hk') as Hf. rewrite He in Hf. cbn [first_low] in Hf.
          rewrite Hf. apply negb_true_iff. exact Hp1. }
        cbv beta iota. rewrite Hv, IH; auto.
    + rewrite IH; auto.
  - destruct (units_big c ltac:(lia)) as (hi & lo & -> & Hhi & Hlo & Hval).
    simpl app. rewrite decode_cons.
    replace (is_high hi) with true by (symmetry; zb).
    replace (is_low lo) with true by (symmetry; zb).
    rewrite Hval, IH; auto.
Qed.

Lemma collapse_encode (b : bool) (m : list Z) :
  Forall valid_cp m -> collapse_ws_aux b (encode m) = encode (collapse_ws_aux b m).
Proof.
  revert b; induction m as [|c m IH]; intros b Hm; [reflexivity|].
  inversion Hm as [|? ? Hc Hm']; subst. unfold valid_cp in Hc.
  rewrite encode_cons.
  destruct (Z.ltb_spec c 65536).
  - rewrite units_small by lia. simpl app. simpl collapse_ws_aux.
    destruct (is_ws c), b; simpl; rewrite ?IH, ?units_small by (auto; lia); reflexivity.
  - destruct (units_big c ltac:(lia)) as (hi & lo & Hu & Hhi & Hlo & _).
    rewrite Hu. simpl app. simpl collapse_ws_aux.
    rewrite (ws_not_surrogate hi), (ws_not_surrogate lo) by lia.
    assert (Hc' : is_ws c = false).
    { destruct (is_ws c) eqn:E; [apply ws_bmp in E; lia | reflexivity]. }
    rewrite Hc', encode_cons, Hu, IH by assumption. reflexivity.
Qed.

Lemma drop_ws_encode (m : list Z) :
  Forall valid_cp m -> drop_ws (encode m) = encode (drop_ws m).
Proof.
  induction m as [|c m IH]; intros Hm; [reflexivity|].
  inversion Hm as [|? ? Hc Hm']; subst. unfold valid_cp in Hc.
  rewrite encode_cons.
  destruct (Z.ltb_spec c 65536).
  - rewrite units_small by lia. simpl.
    destruct (is_ws c); [apply IH; assumption|].
    rewrite encode_cons, units_small by lia. reflexivity.
  - destruct (units_big c ltac:(lia)) as (hi & lo & Hu & Hhi & Hlo & _).
    rewrite Hu. simpl. rewrite (ws_not_surrogate hi) by lia.
    assert (Hc' : is_ws c = false).
    { destruct (is_ws c) eqn:E; [apply ws_bmp in E; lia | reflexivity]. }
    rewrite Hc', encode_cons, Hu. reflexivity.
Qed.

Lemma drop_ws_end_encode (m : list Z) :
  Forall valid_cp m ->
  rev (drop_ws (rev (encode m))) = encode (rev (drop_ws (rev m))).
Proof.
  induction m as [|c m IH] using rev_ind; intros Hm; [reflexivity|].
  apply Forall_app in Hm as [Hm Hc]. inversion Hc as [|? ? Hc' _]; subst.
  unfold valid_cp in Hc'.
  rewrite encode_app. unfold encode at 2. simpl flat_map. rewrite app_nil_r.
  rewrite !rev_app_distr. simpl rev at 2.
  destruct (Z.ltb_spec c 65536).
  - rewrite units_small by lia. simpl.
    destruct (is_ws c); [apply IH; assumption|].
    cbn [rev]. rewrite !rev_involutive, encode_app, encode_cons, units_small by lia.
    reflexivity.
  - destruct (units_big c ltac:(lia)) as (hi & lo & Hu & Hhi & Hlo & _).
    rewrite Hu. simpl. rewrite (ws_not_surrogate lo) by lia.
    assert (Hc'' : is_ws c = false).
    { destruct (is_ws c) eqn:E; [apply ws_bmp in E; lia | reflexivity]. }
    rewrite Hc''. cbn [rev]. rewrite !rev_involutive, encode_app, encode_cons, Hu.
    rewrite <- !app_assoc. reflexivity.
Qed.

Lemma Forall_drop_ws (Q : Z -> Prop) (m : list Z) :
  Forall Q m -> Forall Q (drop_ws m).
Proof.
  induction m as [|c m IH]; intros Hm; [constructor|].
  inversion Hm; subst. simpl. destruct (is_ws c); auto.
Qed.

Lemma Forall_trim (Q : Z -> Prop) (m : list Z) : Forall Q m -> Forall Q (trim m).
Proof.
  intros Hm. unfold trim. apply Forall_rev, Forall_drop_ws, Forall_rev, Forall_drop_ws, Hm.
Qed.

Lemma trim_encode (m : list Z) :
  Forall valid_cp m -> trim (encode m) = encode (trim m).
Proof.
  intros Hm. unfold trim. rewrite drop_ws_encode by assumption.
  apply drop_ws_end_encode, Forall_drop_ws, Hm.
Qed.

Lemma ws_ok_collapse (b : bool) (m : list Z) : ws_ok b (collapse_ws_aux b m).
Proof.
  revert b; induction m as [|c m IH]; intros b; [exact I|]. simpl.
  destruct (is_ws c) eqn:Hc.
  - destruct b; [apply IH|]. simpl. split; [auto | apply IH].
  - simpl. rewrite Hc. split; [discriminate | apply IH].
Qed.

Lemma collapse_ws_ok (b : bool) (l : list Z) : ws_ok b l -> collapse_ws_aux b l = l.
Proof.
  revert b; induction l as [|c l IH]; intros b H; [reflexivity|].
  destruct H as [H1 H2]. simpl.
  destruct (is_ws c) eqn:Hc.
  - destruct (H1 eq_refl) as [-> ->]. rewrite IH by assumption. reflexivity.
  - rewrite IH by assumption. reflexivity.
Qed.

Lemma ws_ok_drop (b b' : bool) (l : list Z) : ws_ok b l -> ws_ok b' (drop_ws l).
Proof.
  revert b; induction l as [|c l IH]; intros b H; [exact I|]. destruct H as [H1 H2].
  simpl. destruct (is_ws c) eqn:Hc; [eapply IH; eassumption|].
  split; [rewrite Hc; discriminate | rewrite Hc; exact H2].
Qed.

Lemma ws_ok_app (b : bool) (l1 l2 : list Z) : ws_ok b (l1 ++ l2) -> ws_ok b l1.
Proof.
  revert b; induction l1 as [|c l1 IH]; intros b H; [exact I|].
  destruct H as [H1 H2]. split; [exact H1 | eapply IH; exact H2].
Qed.

Lemma drop_ws_split (l : list Z) : exists pre, l = pre ++ drop_ws l.
Proof.
  induction l as [|c l [pre IH]]; [exists []; reflexivity|]. simpl.
  destruct (is_ws c); [exists (c :: pre); simpl; rewrite <- IH; reflexivity | exists []; reflexivity].
Qed.

Lemma ws_ok_trim (b b' : bool) (l : list Z) : ws_ok b l -> ws_ok b' (trim l).
Proof.
  intros H. unfold trim.
  pose proof (ws_ok_drop b b' l H) as H1.
  destruct (drop_ws_split (rev (drop_ws l))) as [pre Hpre].
  apply (f_equal (@rev Z)) in Hpre. rewrite rev_involutive, rev_app_distr in Hpre.
  rewrite Hpre in H1. eapply ws_ok_app. exact H1.
Qed.

Lemma drop_ws_idem (l : list Z) : drop_ws (drop_ws l) = drop_ws l.
Proof.
  induction l as [|c l IH]; [reflexivity|]. simpl.
  destruct (is_ws c) eqn:Hc; [exact IH | simpl; rewrite Hc; reflexivity].
Qed.

Lemma drop_ws_head (l r : list Z) (c : Z) : drop_ws l = c :: r -> is_ws c = false.
Proof.
  induction l as [|x l IH]; intros H; [discriminate|]. simpl in H.
  destruct (is_ws x) eqn:Hx; [apply IH, H | injection H as -> _; exact Hx].
Qed.

Lemma trim_idem (l : list Z) : trim (trim l) = trim l.
Proof.
  unfold trim at 2 3.
  set (w := drop_ws l).
  set (z := rev (drop_ws (rev w))).
  assert (Hz : drop_ws z = z).
  { destruct (drop_ws_split (rev w)) as [pre Hpre].
    assert (Hw : w = z ++ rev pre).
    { unfold z. rewrite <- rev_app_distr, <- Hpre, rev_involutive. reflexivity. }
    destruct z as [|c z'] eqn:Ez; [reflexivity|].
    assert (Hc : is_ws c = false).
    { apply (drop_ws_head l (z' ++ rev pre)). fold w. rewrite Hw. reflexivity. }
    simpl. rewrite Hc. reflexivity. }
  unfold trim. rewrite Hz. unfold z. rewrite rev_involutive, drop_ws_idem. reflexivity.
Qed.

Lemma Forall_collapse (Q : Z -> Prop) (b : bool) (m : list Z) :
  Q 32 -> Forall (fun c => is_ws c = false -> Q c) m -> Forall Q (collapse_ws_aux b m).
Proof.
  intros H32. revert b; induction m as [|c m IH]; intros b Hm; [constructor|].
  inversion Hm as [|? ? Hc Hm']; subst. simpl.
  destruct (is_ws c) eqn:Hw.
  - destruct b; [apply IH; exact Hm' | constructor; [exact H32 | apply IH; exact Hm']].
  - constructor; [apply Hc; reflexivity | apply IH; exact Hm'].
Qed.

Lemma no_pair_no_high (l : list Z) : Forall (fun c => is_high c = false) l -> no_pair l = true.
Proof.
  induction l as [|c l IH]; intros H; [reflexivity|]. inversion H; subst.
  rewrite no_pair_cons, IH by assumption. match goal with E : is_high c = false |- _ => rewrite E end.
  reflexivity.
Qed.

Lemma no_pair_app (a c : list Z) :
  no_pair (a ++ c) = no_pair a && no_pair c && negb (last_high a && first_low c).
Proof.
  induction a as [|x a IH]; [simpl; destruct (no_pair c); reflexivity|].
  rewrite <- app_comm_cons, no_pair_cons, IH, no_pair_cons.
  destruct a as [|y a'].
  - simpl. destruct (is_high x), (first_low c), (no_pair c); reflexivity.
  - simpl first_low. change (last_high (x :: y :: a')) with (last_high (y :: a')).
    destruct (is_high x && is_low y), (no_pair (y :: a')), (no_pair c),
      (last_high (y :: a') && first_low c); reflexivity.
Qed.

Section LowerFacts.
Context `{P : Platform} {UL : UnicodeLaws}.

Lemma lower_cps_fixed (b l : list Z) : Forall lower_fixed (lower_cps b l).
Proof.
  revert b; induction l as [|c l IH]; intros b; [constructor|]. simpl.
  apply Forall_app. split; [|apply IH].
  apply Forall_forall. intros d Hd. eapply lower_idem. exact Hd.
Qed.

Lemma lower_block (b : list Z) (c : Z) (a : list Z) : valid_cp c ->
  (is_surrogate c = true /\ lower_cp b c a = [c]) \/
  (is_surrogate c = false /\ lower_cp b c a <> [] /\
   Forall (fun d => is_surrogate d = false /\ valid_cp d) (lower_cp b c a)).
Proof.
  intros Hc. destruct (is_surrogate c) eqn:Hs.
  - left. split; [reflexivity | apply lower_surrogate; exact Hs].
  - right. split; [reflexivity | apply lower_scalar; assumption].
Qed.

Lemma lower_cps_valid (b l : list Z) : Forall valid_cp l -> Forall valid_cp (lower_cps b l).
Proof.
  revert b; induction l as [|c l IH]; intros b Hl; [constructor|].
  inversion Hl as [|? ? Hc Hl']; subst. simpl. apply Forall_app. split; [|apply IH; exact Hl'].
  destruct (lower_block b c l Hc) as [[_ ->] | (_ & _ & Hf)].
  - constructor; [exact Hc | constructor].
  - eapply Forall_impl; [|exact Hf]. intros d [_ Hd]. exact Hd.
Qed.

Lemma surrogate_high (d : Z) : is_surrogate d = false -> is_high d = false.
Proof. intros H. zb. Qed.

Lemma surrogate_low (d : Z) : is_surrogate d = false -> is_low d = false.
Proof. intros H. zb. Qed.

Lemma first_low_scalars (l : list Z) :
  Forall (fun d => is_surrogate d = false /\ valid_cp d) l -> first_low l = false.
Proof. intros H. destruct l; [reflexivity|]. inversion H as [|? ? [Hs _] _]; subst. apply surrogate_low, Hs. Qed.

Lemma last_high_scalars (l : list Z) :
  Forall (fun d => is_surrogate d = false /\ valid_cp d) l -> last_high l = false.
Proof.
  induction l as [|x l IH]; intros H; [reflexivity|]. inversion H as [|? ? [Hs _] H']; subst.
  destruct l as [|y l']; [apply surrogate_high, Hs | apply IH, H'].
Qed.

Lemma first_low_lower (b l : list Z) :
  Forall valid_cp l -> first_low (lower_cps b l) = first_low l.
Proof.
  intros Hl. destruct l as [|c l]; [reflexivity|]. inversion Hl as [|? ? Hc _]; subst.
  simpl lower_cps.
  destruct (lower_block b c l Hc) as [[Hs ->] | (Hs & Hne & Hf)].
  - reflexivity.
  - destruct (lower_cp b c l) as [|d ds] eqn:E; [contradiction|].
    simpl. inversion Hf as [|? ? [Hd _] _]; subst.
    rewrite surrogate_low, (surrogate_low c) by assumption. reflexivity.
Qed.

Lemma no_pair_lower (b l : list Z) :
  Forall valid_cp l -> no_pair l = true -> no_pair (lower_cps b l) = true.
Proof.
  revert b; induction l as [|c l IH]; intros b Hl Hp; [reflexivity|].
  inversion Hl as [|? ? Hc Hl']; subst.
  rewrite no_pair_cons in Hp. apply andb_true_iff in Hp as [Hp1 Hp2].
  simpl lower_cps. rewrite no_pair_app, IH by assumption. rewrite first_low_lower by assumption.
  destruct (lower_block b c l Hc) as [[Hs ->] | (Hs & Hne & Hf)].
  - simpl. simpl in Hp1. destruct (is_high c), (first_low l); try reflexivity; discriminate.
  - rewrite last_high_scalars, no_pair_no_high by
      (try (eapply Forall_impl; [|exact Hf]; intros d [Hd _]; apply surrogate_high, Hd); assumption).
    reflexivity.
Qed.

Lemma lower_cps_id (b l : list Z) : Forall lower_fixed l -> lower_cps b l = l.
Proof.
  revert b; induction l as [|c l IH]; intros b Hl; [reflexivity|].
  inversion Hl as [|? ? Hc Hl']; subst. simpl. rewrite Hc, IH by assumption. reflexivity.
Qed.

End LowerFacts.

Section NormalizeFacts.
Context `{P : Platform} {UL : UnicodeLaws}.

Lemma norm_cp_facts (c : Z) :
  norm_cp c -> valid_cp c /\ is_surrogate c = false /\ lower_fixed c /\ keep_LNS c = c.
Proof.
  intros [-> | [HLN Hf]].
  - split; [unfold valid_cp; lia|]. split; [reflexivity|]. split; [exact lower_space|].
    unfold keep_LNS. destruct (is_letter 32 || is_number 32); reflexivity.
  - destruct (letter_number_scalar c HLN) as [Hs Hv].
    split; [exact Hv|]. split; [exact Hs|]. split; [exact Hf|].
    unfold keep_LNS. rewrite HLN. reflexivity.
Qed.

Lemma normalize_shape (s : jstr) : units_ok s ->
  exists l, normalize s = encode l /\ Forall norm_cp l /\ ws_ok false l /\ trim l = l.
Proof.
  intros Hu. destruct (decode_facts (length s) s (le_n _)) as [Hnp Hv].
  specialize (Hv Hu).
  unfold normalize, toLowerCase, replace_non_LNS, collapse_ws.
  set (k := lower_cps [] (decode s)).
  assert (Hkv : Forall valid_cp k) by (apply lower_cps_valid; exact Hv).
  assert (Hknp : no_pair k = true) by (apply no_pair_lower; assumption).
  assert (Hkf : Forall lower_fixed k) by apply lower_cps_fixed.
  rewrite decode_encode by assumption.
  fold (@keep_LNS P).
  set (m := map keep_LNS k).
  assert (Hmv : Forall valid_cp m).
  { apply Forall_map. eapply Forall_impl; [|exact Hkv]. intros c Hc.
    unfold keep_LNS. destruct (is_letter c || is_number c || is_ws c);
      [exact Hc | unfold valid_cp; lia]. }
  assert (Hmq : Forall (fun c => is_ws c = false -> norm_cp c) m).
  { apply Forall_map. eapply Forall_impl; [|exact Hkf]. intros c Hc Hw.
    unfold keep_LNS in *. destruct (is_letter c || is_number c) eqn:HLN; cbn [orb] in *.
    - right. split; [exact HLN | exact Hc].
    - destruct (is_ws c) eqn:Hwc; [congruence | left; reflexivity]. }
  rewrite collapse_encode by exact Hmv.
  rewrite trim_encode.
  2:{ apply Forall_collapse; [unfold valid_cp; lia|].
      eapply Forall_impl; [|exact Hmv]. intros c Hc _. exact Hc. }
  exists (trim (collapse_ws_aux false m)). split; [reflexivity|].
  split; [apply Forall_trim, Forall_collapse; [left; reflexivity | exact Hmq]|].
  split; [apply (ws_ok_trim false), ws_ok_collapse | apply trim_idem].
Qed.

Lemma normalize_fixed (l : list Z) :
  Forall norm_cp l -> ws_ok false l -> trim l = l -> normalize (encode l) = encode l.
Proof.
  intros Hq Hws Ht.
  assert (Hv : Forall valid_cp l)
    by (eapply Forall_impl; [|exact Hq]; intros c Hc; apply norm_cp_facts, Hc).
  assert (Hnp : no_pair l = true).
  { apply no_pair_no_high. eapply Forall_impl; [|exact Hq]. intros c Hc.
    apply surrogate_high, norm_cp_facts, Hc. }
  assert (Hf : Forall lower_fixed l)
    by (eapply Forall_impl; [|exact Hq]; intros c Hc; apply norm_cp_facts, Hc).
  unfold normalize, toLowerCase, replace_non_LNS, collapse_ws.
  rewrite (decode_encode l), lower_cps_id, (decode_encode l) by assumption.
  fold (@keep_LNS P).
  rewrite (map_ext_in keep_LNS id l), map_id.
  2:{ intros c Hc. apply norm_cp_facts. eapply Forall_forall; [exact Hq | exact Hc]. }
  rewrite collapse_encode, collapse_ws_ok, trim_encode, Ht by assumption.
  reflexivity.
Qed.

End NormalizeFacts.

Lemma platform_ascii_laws : @UnicodeLaws platform_ascii.
Proof.
  assert (Hla : forall c, is_surrogate c = true -> lower_ascii c = c).
  { intros c Hs. zb. unfold lower_ascii.
    destruct (Z.leb_spec 65 c), (Z.leb_spec c 90); simpl; lia. }
  assert (Hli : forall c, lower_ascii (lower_ascii c) = lower_ascii c).
  { intros c. unfold lower_ascii.
    destruct ((65 <=? c) && (c <=? 90)) eqn:E.
    - apply andb_true_iff in E as [E1 E2]. apply Z.leb_le in E1, E2.
      destruct (Z.leb_spec (c + 32) 90); [lia|].
      rewrite andb_false_r. reflexivity.
    - rewrite E. reflexivity. }
  split; simpl.
  - intros _ c _ Hs. rewrite Hla by exact Hs. reflexivity.
  - intros _ c _ Hs Hv. split; [discriminate|].
    constructor; [|constructor]. unfold lower_ascii, valid_cp in *.
    destruct (Z.leb_spec 65 c), (Z.leb_spec c 90); simpl; [|split; [exact Hs | exact Hv]..].
    split; [zb | lia].
  - intros _ c _ d [<- | []] b a. simpl. rewrite Hli. reflexivity.
  - intros b a. reflexivity.
  - intros c H. unfold is_digit in H.
    repeat rewrite orb_true_iff, ?andb_true_iff, ?Z.leb_le in H.
    split; [zb | unfold valid_cp; lia].
Qed.

Lemma units_ok_check (s : jstr) :
  forallb (fun u => (0 <=? u) && (u <? 65536)) s = true -> units_ok s.
Proof.
  intros H. apply Forall_forall. intros u Hu. eapply forallb_forall in H; [|exact Hu].
  apply andb_true_iff in H as [H1 H2]. apply Z.leb_le in H1. apply Z.ltb_lt in H2. lia.
Qed.

(** C10: [normalize] is idempotent on every JavaScript string (one made of
    16-bit code units), and tokenizing a normalized string gives the tokens
    of the original; this holds for any case mapping and letter/number
    tables satisfying the Unicode facts of [UnicodeLaws]. *)
Theorem C10_normalize_idempotent `{P : Platform} {UL : UnicodeLaws} (s : jstr) :
  units_ok s ->
  normalize (normalize s) = normalize s /\ tokenize (normalize s) = tokenize s.
Proof.
  intros Hu. destruct (normalize_shape s Hu) as (l & Hn & Hq & Hws & Ht).
  assert (Hid : normalize (normalize s) = normalize s)
    by (rewrite Hn; apply normalize_fixed; assumption).
  split; [exact Hid|]. unfold tokenize at 1. rewrite Hid. reflexivity.
Qed.

Lemma C10_witness :
  units_ok (js "  Hello,   WORLD!  42 ") /\
  normalize (js "  Hello,   WORLD!  42 ") = js "hello world 42" /\
  normalize (normalize (js "  Hello,   WORLD!  42 ")) = normalize (js "  Hello,   WORLD!  42 ") /\
  tokenize (normalize (js "  Hello,   WORLD!  42 ")) = tokenize (js "  Hello,   WORLD!  42 ").
Proof.
  assert (Hu : units_ok (js "  Hello,   WORLD!  42 "))
    by (apply units_ok_check; vm_compute; reflexivity).
  split; [exact Hu|]. split; [vm_compute; reflexivity|].
  exact (@C10_normalize_idempotent platform_ascii platform_ascii_laws _ Hu).
Defined.

(** *** Extractive summary *)

Lemma Forall_firstn_gen {A} (Q : A -> Prop) (n : nat) (l : list A) :
  Forall Q l -> Forall Q (firstn n l).
Proof.
  revert l; induction n as [|n IH]; intros [|x l] H; simpl; try constructor.
  - inversion H; assumption.
  - apply IH. inversion H; assumption.
Qed.

Lemma NoDup_firstn_gen {A} (n : nat) (l : list A) : NoDup l -> NoDup (firstn n l).
Proof.
  revert l; induction n as [|n IH]; intros [|x l] H; simpl; try constructor.
  - inversion H as [|? ? Hx Hl]; subst. intros Hin. apply Hx.
    rewrite <- (firstn_skipn n l). apply in_or_app. left. exact Hin.
  - apply IH. inversion H; assumption.
Qed.

Section SummarizerFacts.
Context `{P : Platform}.

Lemma Forall_dedup (Q : jstr -> Prop) (seen l : list jstr) :
  Forall Q l -> Forall Q (dedup_bullets seen l).
Proof.
  revert seen; induction l as [|b l IH]; intros seen H; [constructor|].
  inversion H; subst. simpl.
  destruct (existsb (jeqb (bullet_key b)) seen); [apply IH; assumption|].
  constructor; [assumption | apply IH; assumption].
Qed.

Lemma dedup_keys (seen l : list jstr) :
  Forall (fun k => existsb (jeqb k) seen = false) (map bullet_key (dedup_bullets seen l)) /\
  NoDup (map bullet_key (dedup_bullets seen l)).
Proof.
  revert seen; induction l as [|b l IH]; intros seen; [split; constructor|]. simpl.
  destruct (existsb (jeqb (bullet_key b)) seen) eqn:Hb; [apply IH|].
  destruct (IH (bullet_key b :: seen)) as [Hf Hn]. simpl.
  split.
  - constructor; [exact Hb|].
    eapply Forall_impl; [|exact Hf]. intros k Hk. simpl in Hk.
    apply orb_false_iff in Hk as [_ Hk]. exact Hk.
  - constructor; [|exact Hn]. intros Hin.
    eapply Forall_forall in Hf; [|exact Hin]. simpl in Hf.
    apply orb_false_iff in Hf as [Hf _].
    assert (jeqb (bullet_key b) (bullet_key b) = true) by (apply jeqb_eq; reflexivity).
    congruence.
Qed.

Lemma existsb_jeqb_app (k : jstr) (l1 l2 : list jstr) :
  existsb (jeqb k) (l1 ++ l2) = existsb (jeqb k) l1 || existsb (jeqb k) l2.
Proof. apply existsb_app. Qed.

Lemma dedup_keep_first (seen earlier l : list jstr) :
  (forall k, existsb (jeqb k) seen = existsb (jeqb k) (map bullet_key earlier)) ->
  dedup_bullets seen l = keep_first earlier l.
Proof.
  revert seen earlier; induction l as [|b l IH]; intros seen earlier Hs; [reflexivity|].
  simpl. rewrite <- Hs.
  destruct (existsb (jeqb (bullet_key b)) seen) eqn:Hb; simpl; [|f_equal]; apply IH;
    intros k; rewrite map_app, existsb_jeqb_app, <- Hs; simpl; rewrite orb_false_r.
  - destruct (jeqb k (bullet_key b)) eqn:Hk; [|rewrite orb_false_r; reflexivity].
    apply jeqb_eq in Hk. subst k. rewrite Hb. reflexivity.
  - apply orb_comm.
Qed.

End SummarizerFacts.

(** C3: for every excerpt and every draft the model returns, each bullet of a
    pass is a non-empty, bullet-marker-stripped line of the draft that occurs
    verbatim (case-sensitively) in the excerpt; a bullet is dropped exactly
    when an earlier one has the same case-insensitive, whitespace-collapsed
    key, the kept bullets have distinct keys, and at most 5 are kept.  For a
    fetched page, the excerpt of the first pass is characters 0-8000 and that
    of the retry characters 6000-14000; the user is told there is no
    quotable content exactly when the first pass yields nothing and the retry
    is skipped (window of at most 500 units) or yields nothing, and bullets
    shown come from the retry pass, never from anywhere else. *)
Theorem C3_summarizer_verbatim `{P : Platform} (excerpt draft rawText draft1 draft2 : jstr) :
  (Forall (fun b => In b (map clean_bullet (split_nl draft)) /\ truthy b = true /\
                    includes excerpt b = true) (summ_pass excerpt draft)
   /\ summ_pass excerpt draft = firstn 5 (keep_first [] (verified_bullets excerpt draft))
   /\ NoDup (map bullet_key (summ_pass excerpt draft))
   /\ (length (summ_pass excerpt draft) <= 5)%nat)
  /\ (summarize_page rawText draft1 draft2 = NoQuotableMsg <->
      summ_pass (slice_to rawText 8000) draft1 = [] /\
      (Z.of_nat (length (slice rawText 6000 14000)) <= 500
       \/ summ_pass (slice rawText 6000 14000) draft2 = []))
  /\ (forall bs, summarize_page rawText draft1 draft2 = BulletsShown bs ->
      summ_pass (slice_to rawText 8000) draft1 = [] /\
      bs = summ_pass (slice rawText 6000 14000) draft2 /\ bs <> []).
Proof.
  split; [|split].
  - split; [|split; [|split]].
    + unfold summ_pass. apply Forall_firstn_gen, Forall_dedup.
      apply Forall_forall. intros b Hb. unfold verified_bullets in Hb.
      apply filter_In in Hb as [Hb Hi]. apply filter_In in Hb as [Hb Ht].
      split; [exact Hb | split; assumption].
    + unfold summ_pass. f_equal. apply dedup_keep_first. reflexivity.
    + unfold summ_pass. rewrite <- firstn_map. apply NoDup_firstn_gen, dedup_keys.
    + apply firstn_le_length.
  - unfold summarize_page.
    destruct (summ_pass (slice_to rawText 8000) draft1) as [|b bs1].
    + destruct (Z.ltb_spec 500 (Z.of_nat (length (slice rawText 6000 14000)))).
      * destruct (summ_pass (slice rawText 6000 14000) draft2) as [|b2 bs2].
        -- split; [intros _; split; [reflexivity | right; reflexivity] | reflexivity].
        -- split; [discriminate|]. intros [_ [H' | H']]; [lia | discriminate].
      * split; [intros _; split; [reflexivity | left; lia] | reflexivity].
    + split; [discriminate | intros [H _]; discriminate].
  - intros bs. unfold summarize_page.
    destruct (summ_pass (slice_to rawText 8000) draft1) as [|b bs1]; [|discriminate].
    destruct (Z.ltb_spec 500 (Z.of_nat (length (slice rawText 6000 14000)))); [|discriminate].
    destruct (summ_pass (slice rawText 6000 14000) draft2) as [|b2 bs2]; [discriminate|].
    intros Hs. injection Hs as <-. split; [reflexivity | split; [reflexivity | discriminate]].
Qed.

Lemma C3_witness :
  summ_pass sample_page sample_draft =
    [js "Mastitis is an infection."; js "It causes pain."] /\
  summarize_page sample_page (js "Fabricated line.") (js "") = NoQuotableMsg /\
  ((Forall (fun b => In b (map clean_bullet (split_nl sample_draft)) /\ truthy b = true /\
                     includes sample_page b = true) (summ_pass sample_page sample_draft)
    /\ summ_pass sample_page sample_draft
       = firstn 5 (keep_first [] (verified_bullets sample_page sample_draft))
    /\ NoDup (map bullet_key (summ_pass sample_page sample_draft))
    /\ (length (summ_pass sample_page sample_draft) <= 5)%nat)
   /\ (summarize_page sample_page (js "Fabricated line.") (js "") = NoQuotableMsg <->
       summ_pass (slice_to sample_page 8000) (js "Fabricated line.") = [] /\
       (Z.of_nat (length (slice sample_page 6000 14000)) <= 500
        \/ summ_pass (slice sample_page 6000 14000) (js "") = []))
   /\ (forall bs, summarize_page sample_page (js "Fabricated line.") (js "") = BulletsShown bs ->
       summ_pass (slice_to sample_page 8000) (js "Fabricated line.") = [] /\
       bs = summ_pass (slice sample_page 6000 14000) (js "") /\ bs <> [])).
Proof.
  split; [vm_compute; reflexivity|]. split; [vm_compute; reflexivity|].
  exact (C3_summarizer_verbatim sample_page sample_draft sample_page
           (js "Fabricated line.") (js "")).
Defined.

(** *** Text extraction of /api/fetch *)





Lemma truthy_false (s : jstr) : truthy s = false <-> s = [].
Proof. destruct s; simpl; split; intros H; try reflexivity; discriminate. Qed.









(** *** Fetching a picked source *)

(** C8 (as the code is): when the picked candidate fails and a next one
    exists, the recursive call meets [fetchingNow] still set and returns at
    once: the next candidate is never requested, no exhaustion message is
    shown, and the user has to pick again. *)
Theorem C8_no_advance (resp : jstr -> fetch_resp) (items : list jstr) (index : nat)
    (url next : jstr) (st : fas_state) :
  fetchingNow st = false ->
  nth_error items index = Some url ->
  nth_error items (S index) = Some next ->
  (exists s, resp url = RespError s /\
     pick resp items index st =
       {| fetchingNow := false; requested := requested st ++ [url];
          shown := shown st ++ [MOpening; MFetchFailed s] |}) \/
  (resp url = RespNoText /\
     pick resp items index st =
       {| fetchingNow := false; requested := requested st ++ [url];
          shown := shown st ++ [MOpening; MNotClean] |}) \/
  (exists t, resp url = RespPage t) \/ resp url = RespThrows.
Proof.
  intros Hf Hu Hn. unfold pick. rewrite Hu, Hf. cbn [fetchAndSummarize]. rewrite Hf.
  destruct (resp url) as [s | | t |] eqn:Hr.
  - left. exists s. split; [reflexivity|]. rewrite Hn.
    destruct (length items); cbn; rewrite <- app_assoc; reflexivity.
  - right; left. split; [reflexivity|]. rewrite Hn.
    destruct (length items); cbn; rewrite <- app_assoc; reflexivity.
  - right; right; left. exists t. reflexivity.
  - right; right; right. reflexivity.
Qed.

Lemma C8_witness :
  pick (fun u => if jeqb u (js "https://www.who.int/a") then RespError 404
                 else RespPage (js "Breast pain. "))
       [js "https://www.who.int/a"; js "https://www.nhs.uk/b"] 0 fas_idle
  = {| fetchingNow := false; requested := [js "https://www.who.int/a"];
       shown := [MOpening; MFetchFailed 404] |} /\
  ((exists s, RespError 404 = RespError s /\
     pick (fun u => if jeqb u (js "https://www.who.int/a") then RespError 404
                    else RespPage (js "Breast pain. "))
          [js "https://www.who.int/a"; js "https://www.nhs.uk/b"] 0 fas_idle =
       {| fetchingNow := false; requested := requested fas_idle ++ [js "https://www.who.int/a"];
          shown := shown fas_idle ++ [MOpening; MFetchFailed s] |}) \/
   (RespError 404 = RespNoText /\
     pick (fun u => if jeqb u (js "https://www.who.int/a") then RespError 404
                    else RespPage (js "Breast pain. "))
          [js "https://www.who.int/a"; js "https://www.nhs.uk/b"] 0 fas_idle =
       {| fetchingNow := false; requested := requested fas_idle ++ [js "https://www.who.int/a"];
          shown := shown fas_idle ++ [MOpening; MNotClean] |}) \/
   (exists t, RespError 404 = RespPage t) \/ RespError 404 = RespThrows).
Proof.
  split; [vm_compute; reflexivity|].
  exact (C8_no_advance
           (fun u => if jeqb u (js "https://www.who.int/a") then RespError 404
                     else RespPage (js "Breast pain. "))
           [js "https://www.who.int/a"; js "https://www.nhs.uk/b"] 0
           (js "https://www.who.int/a") (js "https://www.nhs.uk/b") fas_idle
           eq_refl eq_refl eq_refl).
Defined.

(** *** Result ranking *)

Section SortFacts.
Context {A : Type} (key : A -> Z).

Lemma insert_desc_perm (x : A) (l : list A) : Permutation (x :: l) (insert_desc key x l).
Proof.
  induction l as [|y l IH]; simpl; [reflexivity|].
  destruct (key y <? key x); [reflexivity|].
  transitivity (y :: x :: l); [apply perm_swap | apply perm_skip, IH].
Qed.

Lemma sort_desc_perm_gen (l acc : list A) :
  Permutation (l ++ acc) (fold_left (fun acc x => insert_desc key x acc) l acc).
Proof.
  revert acc; induction l as [|x l IH]; intros acc; [reflexivity|]. simpl.
  rewrite <- IH. rewrite <- insert_desc_perm. apply Permutation_middle.
Qed.

Lemma insert_desc_sorted (x : A) (l : list A) :
  Sorted (desc_by key) l -> Sorted (desc_by key) (insert_desc key x l).
Proof.
  induction l as [|y l IH]; intros Hs; simpl; [repeat constructor|].
  destruct (Z.ltb_spec (key y) (key x)).
  - constructor; [exact Hs | constructor; unfold desc_by; lia].
  - apply Sorted_inv in Hs as [Hl Hh]. constructor; [apply IH, Hl|].
    destruct l as [|z l']; simpl; [constructor; unfold desc_by; lia|].
    destruct (key z <? key x); constructor; [unfold desc_by; lia|].
    inversion Hh; assumption.
Qed.

Lemma sort_desc_sorted_gen (l acc : list A) :
  Sorted (desc_by key) acc -> Sorted (desc_by key) (fold_left (fun acc x => insert_desc key x acc) l acc).
Proof.
  revert acc; induction l as [|x l IH]; intros acc Hs; [exact Hs|]. simpl.
  apply IH, insert_desc_sorted, Hs.
Qed.

Lemma sorted_below_head (y : A) (l : list A) :
  Sorted (desc_by key) (y :: l) -> Forall (fun z => key z <= key y) (y :: l).
Proof.
  intros Hs. apply Sorted_StronglySorted in Hs; [|unfold Relations_1.Transitive, desc_by; intros; lia].
  apply StronglySorted_inv in Hs as [_ Hf]. constructor; [lia|].
  eapply Forall_impl; [|exact Hf]. unfold desc_by. intros; lia.
Qed.

Lemma filter_cons_app (p : A -> bool) (a : A) (r : list A) :
  filter p (a :: r) = (if p a then [a] else []) ++ filter p r.
Proof. simpl. destruct (p a); reflexivity. Qed.

Lemma filter_insert_desc (v : Z) (x : A) (l : list A) :
  Sorted (desc_by key) l ->
  filter (fun a => key a =? v) (insert_desc key x l) =
  filter (fun a => key a =? v) l ++ (if key x =? v then [x] else []).
Proof.
  induction l as [|y l IH]; intros Hs; [simpl; destruct (key x =? v); reflexivity|].
  cbn [insert_desc]. destruct (Z.ltb_spec (key y) (key x)).
  - assert (Hnone : key x = v -> filter (fun a => key a =? v) (y :: l) = []).
    { intros <-. apply sorted_below_head in Hs.
      induction (y :: l) as [|z zs IHz]; [reflexivity|].
      inversion Hs as [|? ? Hz Hzs]; subst. simpl.
      destruct (Z.eqb_spec (key z) (key x)); [lia | apply IHz, Hzs]. }
    rewrite (filter_cons_app _ x (y :: l)).
    destruct (Z.eqb_spec (key x) v) as [E|E].
    + rewrite (Hnone E). reflexivity.
    + rewrite app_nil_r. reflexivity.
  - apply Sorted_inv in Hs as [Hl _].
    rewrite !(filter_cons_app _ y), IH by exact Hl. apply app_assoc.
Qed.

Lemma filter_sort_desc_gen (v : Z) (l acc : list A) :
  Sorted (desc_by key) acc ->
  filter (fun a => key a =? v) (fold_left (fun acc x => insert_desc key x acc) l acc) =
  filter (fun a => key a =? v) acc ++ filter (fun a => key a =? v) l.
Proof.
  revert acc; induction l as [|x l IH]; intros acc Hs; simpl; [rewrite app_nil_r; reflexivity|].
  rewrite IH by (apply insert_desc_sorted, Hs).
  rewrite filter_insert_desc by exact Hs. rewrite <- app_assoc.
  destruct (key x =? v); reflexivity.
Qed.

End SortFacts.

(** C9 (as the code is): [scoreResult] is a function of the item and of
    [lastSearch.query]; [startWebSearch] presents the items as a permutation
    sorted by decreasing score, ties in upstream order, where the score is
    computed with the query of the PREVIOUS search ([lastSearch] is only
    updated after the sort); the current query is merely stored. *)
Theorem C9_ranks_by_previous_query `{P : Platform} (lastQuery userText : jstr)
    (items : list search_item) :
  let presented := snd (startWebSearch lastQuery userText items) in
  fst (startWebSearch lastQuery userText items) = userText /\
  Permutation items presented /\
  Sorted (fun a b => scoreResult lastQuery b <= scoreResult lastQuery a) presented /\
  (forall v, filter (fun it => scoreResult lastQuery it =? v) presented =
             filter (fun it => scoreResult lastQuery it =? v) items).
Proof.
  intros presented. unfold presented, startWebSearch, sort_desc. simpl.
  split; [reflexivity|]. split; [|split].
  - rewrite <- (app_nil_r items) at 1. apply sort_desc_perm_gen.
  - apply sort_desc_sorted_gen. constructor.
  - intros v. rewrite filter_sort_desc_gen by constructor. reflexivity.
Qed.

Lemma C9_witness :
  startWebSearch (js "") (js "mastitis") [item_mastitis; item_publication] =
    (js "mastitis", [item_mastitis; item_publication]) /\
  scoreResult (js "mastitis") item_mastitis < scoreResult (js "mastitis") item_publication /\
  (let presented := snd (startWebSearch (js "") (js "mastitis") [item_mastitis; item_publication]) in
   fst (startWebSearch (js "") (js "mastitis") [item_mastitis; item_publication]) = js "mastitis" /\
   Permutation [item_mastitis; item_publication] presented /\
   Sorted (fun a b => scoreResult (js "") b <= scoreResult (js "") a) presented /\
   (forall v, filter (fun it => scoreResult (js "") it =? v) presented =
              filter (fun it => scoreResult (js "") it =? v) [item_mastitis; item_publication])).
Proof.
  split; [vm_compute; reflexivity|]. split; [apply Z.ltb_lt; vm_compute; reflexivity|].
  exact (C9_ranks_by_previous_query (js "") (js "mastitis") [item_mastitis; item_publication]).
Defined.

(* ------------------------------------------------------------------ *)
(** ** Further properties of the code *)

Lemma decode_app_n (n : nat) (a b : jstr) :
  (length a <= n)%nat -> first_low b = false -> decode (a ++ b) = decode a ++ decode b.
Proof.
  revert a; induction n as [|n IH]; intros a Hl Hb.
  - destruct a; [reflexivity | simpl in Hl; lia].
  - destruct a as [|u r]; [reflexivity|]. simpl in Hl.
    cbn [app]. rewrite !decode_cons.
    destruct (is_high u) eqn:Hh; [|cbn [app]; rewrite (IH r ltac:(lia) Hb); reflexivity].
    destruct r as [|v r].
    + cbn [app]. destruct b as [|v b]; [reflexivity|]. simpl in Hb. rewrite Hb. reflexivity.
    + cbn [app]. destruct (is_low v) eqn:Hv.
      * rewrite (IH r ltac:(simpl in Hl; lia) Hb). reflexivity.
      * change (v :: r ++ b) with ((v :: r) ++ b).
        rewrite (IH (v :: r) ltac:(lia) Hb). reflexivity.
Qed.

Lemma decode_app (a b : jstr) : first_low b = false -> decode (a ++ b) = decode a ++ decode b.
Proof. apply (decode_app_n (length a)). lia. Qed.

Lemma lower_cps_mid `{Platform} (b l1 l2 : list Z) (c : Z) :
  exists X Y, lower_cps b (l1 ++ c :: l2) = X ++ lower_cp (rev l1 ++ b) c l2 ++ Y.
Proof.
  revert b; induction l1 as [|x l1 IH]; intros b.
  - exists [], (lower_cps (c :: b) l2). reflexivity.
  - destruct (IH (x :: b)) as (X & Y & E).
    exists (lower_cp b x (l1 ++ c :: l2) ++ X), Y. cbn [app lower_cps]. rewrite E.
    cbn [rev]. rewrite <- app_assoc. cbn [app]. rewrite <- app_assoc. reflexivity.
Qed.

(** [toLowerCase] keeps a caseless supplementary code point in place. *)
Lemma toLowerCase_keeps_cp `{Platform} (a b : jstr) (c : Z) :
  65536 <= c < 1114112 -> lower_fixed c ->
  exists a' b', toLowerCase (a ++ units_of c ++ b) = a' ++ units_of c ++ b'.
Proof.
  intros Hc Hf. destruct (units_big c Hc) as (hi & lo & Hu & Hhi & Hlo & Hv).
  unfold toLowerCase. rewrite decode_app by (rewrite Hu; simpl; zb).
  rewrite Hu. cbn [app]. rewrite decode_cons.
  replace (is_high hi) with true by (symmetry; zb).
  replace (is_low lo) with true by (symmetry; zb). rewrite Hv.
  destruct (lower_cps_mid [] (decode a) (decode b) c) as (X & Y & ->). rewrite Hf.
  rewrite !encode_app. cbn [app]. rewrite encode_cons, Hu.
  exists (encode X), (encode Y). reflexivity.
Qed.

Lemma drop_ws_block (a w b : jstr) (x : Z) :
  is_ws x = false -> exists a', drop_ws (a ++ x :: w ++ b) = a' ++ x :: w ++ b.
Proof.
  intros Hx. induction a as [|y a IH].
  - exists []. simpl. rewrite Hx. reflexivity.
  - cbn [app drop_ws]. destruct (is_ws y).
    + exact IH.
    + exists (y :: a). reflexivity.
Qed.

Lemma trim_block (a w b : jstr) (x y : Z) :
  is_ws x = false -> is_ws y = false ->
  exists a' b', trim (a ++ x :: w ++ y :: b) = a' ++ x :: w ++ y :: b'.
Proof.
  intros Hx Hy. unfold trim.
  destruct (drop_ws_block a (w ++ [y]) b x Hx) as [a1 E1].
  replace (a ++ x :: w ++ y :: b) with (a ++ x :: (w ++ [y]) ++ b)
    by (rewrite <- app_assoc; reflexivity).
  rewrite E1.
  replace (rev (a1 ++ x :: (w ++ [y]) ++ b)) with (rev b ++ y :: (rev w ++ [x]) ++ rev a1)
    by (repeat (rewrite ?rev_app_distr; cbn [rev app]); rewrite <- !app_assoc; reflexivity).
  destruct (drop_ws_block (rev b) (rev w ++ [x]) (rev a1) y Hy) as [b1 E2].
  rewrite E2. exists a1, (rev b1).
  repeat (rewrite ?rev_app_distr, ?rev_involutive; cbn [rev app]).
  rewrite <- !app_assoc. reflexivity.
Qed.

Lemma In_drop_ws (u : Z) (s : jstr) : In u s -> is_ws u = false -> In u (drop_ws s).
Proof.
  induction s as [|x s IH]; intros Hin Hu; [destruct Hin|].
  simpl. destruct (is_ws x) eqn:Hx.
  - destruct Hin as [<-|Hin]; [congruence | exact (IH Hin Hu)].
  - exact Hin.
Qed.

Lemma In_trim (u : Z) (s : jstr) : In u s -> is_ws u = false -> In u (trim s).
Proof.
  intros Hin Hu. unfold trim. apply in_rev. rewrite rev_involutive.
  apply In_drop_ws; [|exact Hu]. apply in_rev. rewrite rev_involutive.
  apply In_drop_ws; assumption.
Qed.

Lemma test_from_class (ci : bool) (items : list citem) (pre s : list Z) (u : Z) :
  In u s -> class_has ci items u = true ->
  test_from ci (RSeq (RClass false items) REmpty) pre s = true.
Proof.
  revert pre; induction s as [|x s IH]; intros pre Hin Hu; [destruct Hin|].
  cbn [test_from mt]. destruct Hin as [<-|Hin].
  - rewrite Hu. reflexivity.
  - rewrite (IH (x :: pre) Hin Hu). apply orb_true_r.
Qed.

Lemma test_class (x : regex) (items : list citem) (s : jstr) (u : Z) :
  parse_re (rx_src x) = Some (RSeq (RClass false items) REmpty) ->
  In u s -> class_has (rx_i x) items u = true -> test x s = true.
Proof.
  intros Hp Hin Hu. unfold test. rewrite Hp. exact (test_from_class _ _ [] s u Hin Hu).
Qed.

Ltac parse_now :=
  match goal with |- ?a = _ => let v := eval vm_compute in a in change a with v end;
  reflexivity.

Lemma high_of_cp (c hi lo : Z) :
  56320 <= lo <= 57343 -> 65536 + (hi - 55296) * 1024 + (lo - 56320) = c ->
  (128000 <= c <= 129023 -> hi = 55357) /\ (129024 <= c <= 130047 -> hi = 55358).
Proof. intros Hlo Hv. split; intros Hc; lia. Qed.

(** A supplementary code point keeps its high surrogate through trimming
    and lowercasing. *)
Lemma high_unit_kept `{Platform} (pre post : jstr) (c : Z) :
  65536 <= c < 1114112 -> lower_fixed c ->
  exists hi lo, units_of c = [hi; lo] /\
    65536 + (hi - 55296) * 1024 + (lo - 56320) = c /\ 56320 <= lo <= 57343 /\
    In hi (toLowerCase (trim (pre ++ units_of c ++ post))) /\
    In hi (trim (toLowerCase (pre ++ units_of c ++ post))).
Proof.
  intros Hc Hf. destruct (units_big c Hc) as (hi & lo & Hu & Hhi & Hlo & Hv).
  exists hi, lo. split; [exact Hu|]. split; [exact Hv|]. split; [exact Hlo|].
  assert (Hwh : is_ws hi = false) by (apply ws_not_surrogate; lia).
  assert (Hwl : is_ws lo = false) by (apply ws_not_surrogate; lia).
  split.
  - rewrite Hu. destruct (trim_block pre [] post hi lo Hwh Hwl) as (a' & b' & E).
    cbn [app] in E |- *. rewrite E.
    change (a' ++ hi :: lo :: b') with (a' ++ [hi; lo] ++ b'). rewrite <- Hu.
    destruct (toLowerCase_keeps_cp a' b' c Hc Hf) as (a2 & b2 & ->).
    rewrite Hu. apply in_or_app. right. left. reflexivity.
  - apply In_trim; [|exact Hwh].
    destruct (toLowerCase_keeps_cp pre post c Hc Hf) as (a2 & b2 & ->).
    rewrite Hu. apply in_or_app. right. left. reflexivity.
Qed.

(** X2: a message holding an emoji from U+1F400 to U+1F7FF (high surrogate
    0xD83D) anywhere in it, for instance a crying face after "I want to end my
    life", matches [isGreeting]: the emoji class of [greetRe] holds that
    surrogate half.  If the message is not a social check-in, the submit
    handler answers it with a greeting and nothing else, before the crisis
    check. *)
Theorem emoji_message_greeted `{Platform} (cat : list topic) (st : session) (pre post : jstr) (c : Z) :
  128000 <= c <= 129023 -> lower_fixed c ->
  isGreeting (pre ++ units_of c ++ post) = true /\
  (isSocialCheckIn (trim (pre ++ units_of c ++ post)) = false ->
   snd (submit cat st (pre ++ units_of c ++ post)) = [Say GreetAgain] \/
   snd (submit cat st (pre ++ units_of c ++ post)) = [Say GreetNew]).
Proof.
  intros Hc Hf.
  destruct (high_unit_kept pre post c ltac:(lia) Hf) as (hi & lo & Hu & Hv & Hlo & Hin & _).
  assert (Hhi : hi = 55357) by (apply (high_of_cp c hi lo Hlo Hv); exact Hc). subst hi.
  assert (Hg : isGreeting (pre ++ units_of c ++ post) = true).
  { unfold isGreeting. apply orb_true_iff. right.
    eapply test_class; [parse_now | exact Hin | vm_compute; reflexivity]. }
  split; [exact Hg|]. intros Hs.
  assert (Ht : truthy (trim (pre ++ units_of c ++ post)) = true).
  { destruct (trim (pre ++ units_of c ++ post)) eqn:E; [|reflexivity].
    try rewrite E in Hin; simpl in Hin; destruct Hin. }
  assert (Hg' : isGreeting (trim (pre ++ units_of c ++ post)) = true)
    by (unfold isGreeting in *; rewrite trim_idem; exact Hg).
  unfold submit. rewrite Ht, Hs, Hg'. cbn [negb snd].
  destruct (_ <=? 2); [left | right]; reflexivity.
Qed.

(** X3: [classifyTone] returns greeting for every text holding an emoji from
    U+1F400 to U+1FBFF: the greeting emoji class, tested first, holds the
    surrogate halves 0xD83D and 0xD83E. *)
Theorem emoji_tone_greeting `{Platform} (pre post : jstr) (c : Z) :
  128000 <= c <= 130047 -> lower_fixed c ->
  classifyTone (pre ++ units_of c ++ post) = TGreeting.
Proof.
  intros Hc Hf.
  destruct (high_unit_kept pre post c ltac:(lia) Hf) as (hi & lo & Hu & Hv & Hlo & _ & Hin).
  destruct (high_of_cp c hi lo Hlo Hv) as [H1 H2].
  assert (Hcls : class_has false
                   [CRange 55357 55357; CRange 56395 56395; CRange 55357 55357; CRange 56898 56898;
                    CRange 55357 55357; CRange 56842 56842; CRange 55357 55357; CRange 56841 56841;
                    CRange 9996 9996; CRange 65039 65039; CRange 55357 55357; CRange 56396 56396;
                    CRange 55358 55358; CRange 56605 56605] hi = true).
  { destruct (Z.le_gt_cases c 129023).
    - rewrite (H1 ltac:(lia)). reflexivity.
    - rewrite (H2 ltac:(lia)). reflexivity. }
  unfold classifyTone.
  rewrite (test_class rx_toneGreetEmoji _ _ hi ltac:(parse_now) Hin Hcls).
  rewrite orb_true_r. reflexivity.
Qed.

Lemma last_n_app_long {A} (n : nat) (a l : list A) :
  (n <= length l)%nat -> last_n n (a ++ l) = last_n n l.
Proof.
  intros Hn. unfold last_n. rewrite length_app, skipn_app.
  rewrite skipn_all2 by lia. simpl. f_equal. lia.
Qed.

Lemma last_n_short {A} (n : nat) (l : list A) : (length l <= n)%nat -> last_n n l = l.
Proof. intros Hn. unfold last_n. replace (length l - n)%nat with 0%nat by lia. reflexivity. Qed.

Lemma length_last_n {A} (n : nat) (l : list A) : length (last_n n l) = Nat.min n (length l).
Proof. unfold last_n. rewrite length_skipn. lia. Qed.

Lemma last_n_split {A} (n : nat) (l : list A) : l = firstn (length l - n) l ++ last_n n l.
Proof. unfold last_n. symmetry. apply firstn_skipn. Qed.

Lemma last_n_last_n {A} (k n : nat) (l : list A) :
  (k <= n)%nat -> last_n k (last_n n l) = last_n k l.
Proof.
  intros Hk. destruct (Nat.le_gt_cases (length l) n) as [Hl|Hl].
  - rewrite (last_n_short n l Hl). reflexivity.
  - rewrite (last_n_split n l) at 2. symmetry. apply last_n_app_long.
    rewrite length_last_n. lia.
Qed.

Lemma last_n_app_last_n {A} (n : nat) (l r : list A) :
  last_n n (last_n n l ++ r) = last_n n (l ++ r).
Proof.
  destruct (Nat.le_gt_cases (length l) n) as [Hl|Hl].
  - rewrite (last_n_short n l Hl). reflexivity.
  - rewrite (last_n_split n l) at 2. rewrite <- app_assoc. symmetry.
    apply last_n_app_long. rewrite length_app, length_last_n. lia.
Qed.

Lemma shift_while_long_spec {A} (fuel : nat) (h : list A) :
  (length h - 6 <= fuel)%nat -> shift_while_long fuel h = last_n 6 h.
Proof.
  revert h; induction fuel as [|f IH]; intros h Hf; simpl.
  - symmetry. apply last_n_short. lia.
  - destruct (Nat.ltb_spec 6 (length h)) as [Hl|Hl].
    + destruct h as [|x t]; [simpl in Hl; lia|]. simpl in *.
      rewrite IH by lia. unfold last_n. simpl length.
      replace (S (length t) - 6)%nat with (S (length t - 6)) by lia. reflexivity.
    + symmetry. apply last_n_short. lia.
Qed.

Lemma pushHistory_last_n (h : list hist_msg) (m : hist_msg) :
  pushHistory h m = last_n 6 (h ++ [m]).
Proof. unfold pushHistory. apply shift_while_long_spec. lia. Qed.

Lemma fold_pushHistory_gen (ms h : list hist_msg) :
  fold_left pushHistory ms (last_n 6 h) = last_n 6 (h ++ ms).
Proof.
  revert h; induction ms as [|m ms IH]; intros h; simpl.
  - rewrite app_nil_r. reflexivity.
  - rewrite pushHistory_last_n, last_n_app_last_n.
    replace (h ++ m :: ms) with ((h ++ [m]) ++ ms) by (rewrite <- app_assoc; reflexivity).
    rewrite <- IH. reflexivity.
Qed.

(** X6: pushing messages one by one with [pushHistory] into an empty
    history leaves exactly the last six of them, in order; and a stock phrase
    is banned by [recentBannedPhrases] exactly when it occurs in the
    lowercased content of one of the last four messages. *)
Theorem history_window `{Platform} (ms : list hist_msg) :
  fold_left pushHistory ms [] = last_n 6 ms /\
  forall p, In p (recentBannedPhrases (fold_left pushHistory ms [])) <->
    In p stock_phrases /\
    exists m, In m (last_n 4 ms) /\ includes (toLowerCase (content m)) p = true.
Proof.
  assert (Hw : fold_left pushHistory ms [] = last_n 6 ms)
    by exact (fold_pushHistory_gen ms []).
  split; [exact Hw|]. intros p. rewrite Hw. unfold recentBannedPhrases.
  rewrite last_n_last_n by lia. rewrite filter_In, existsb_exists.
  split.
  - intros [Hp (r & Hr & Hi)]. apply in_map_iff in Hr as (m & <- & Hm).
    split; [exact Hp|]. exists m. split; assumption.
  - intros [Hp (m & Hm & Hi)]. split; [exact Hp|].
    exists (toLowerCase (content m)). split; [apply (in_map (fun m => toLowerCase (content m))); exact Hm | exact Hi].
Qed.

Lemma effect_msgs_sum_nonneg (es : list effect) : 0 <= fold_right Z.add 0 (map effect_msgs es).
Proof.
  induction es as [|e es IH]; simpl; [lia|].
  destruct e; cbn [effect_msgs]; lia.
Qed.

Lemma run_fields (st : session) (es : list effect) :
  searchOptIn (fst (run st es)) = searchOptIn st /\
  awaitingSearchConsent (fst (run st es)) = awaitingSearchConsent st /\
  lastGreetTurn (fst (run st es)) = lastGreetTurn st /\
  (histLen st = 6 -> histLen (fst (run st es)) = 6) /\
  snd (run st es) = es.
Proof.
  pose proof (effect_msgs_sum_nonneg es).
  repeat split; simpl; try reflexivity. intros ->. lia.
Qed.

Lemma handleInfoLike_shape `{Platform} (cat : list topic) (u : jstr) (i : intent) :
  (exists p, handleInfoLike cat u i = [AnswerTopic p]) \/ handleInfoLike cat u i = [WebSearch u].
Proof.
  unfold handleInfoLike. destruct (findTopicForMessage cat u); [left; eauto|].
  destruct (intentToTopic_info i); [left; eauto | right; reflexivity].
Qed.

(** Every branch of [after_consent] runs on [st] or on [st] with a pending question. *)
Lemma after_consent_cases `{Platform} (cat : list topic) (st : session) (text : jstr) :
  (exists es, after_consent cat st text = run st es /\ ~ In (Say AskConsent) es /\
     (forall q, In (WebSearch q) es -> searchOptIn st = true)) \/
  (searchOptIn st = false /\
   after_consent cat st text = run (set_consent st (searchOptIn st) (Some text)) [Say AskConsent]).
Proof.
  unfold after_consent.
  destruct (detectIntent text) eqn:Hi;
    try (left; eexists; split; [reflexivity|];
         split; [simpl; intros [E|[]]; discriminate | simpl; intros q [E|[]]; discriminate]);
  (destruct (findTopicForMessage cat text) as [tp|] eqn:Ht;
   [left; eexists; split; [reflexivity|];
    split; [simpl; intros [E|[]]; discriminate | simpl; intros q [E|[]]; discriminate]|]);
  cbn [isInfoIntent];
  try (left; eexists; split; [reflexivity|];
       split; [simpl; intros [E|[]]; discriminate | simpl; intros q [E|[]]; discriminate]);
  (destruct (intentToTopic _) as [p|];
   [left; eexists; split; [reflexivity|];
    split; [simpl; intros [E|[]]; discriminate | simpl; intros q [E|[]]; discriminate]|]);
  (destruct (searchOptIn st) eqn:Ho;
   [left; eexists; split; [reflexivity|];
    match goal with |- context [handleInfoLike _ _ ?i] =>
      destruct (handleInfoLike_shape cat text i) as [[p ->]| ->] end;
    (split; [simpl; intros [E|[]]; discriminate | intros; reflexivity])
   | right; split; reflexivity]).
Qed.

Lemma submit_consent `{Platform} (cat : list topic) (st : session) (raw : jstr) :
  (searchOptIn st = true ->
     searchOptIn (fst (submit cat st raw)) = true /\ ~ In (Say AskConsent) (snd (submit cat st raw))) /\
  (searchOptIn (fst (submit cat st raw)) = true ->
     searchOptIn st = true \/
     (awaitingSearchConsent st <> None /\ test rx_yes (trim raw) = true)) /\
  (forall q, In (WebSearch q) (snd (submit cat st raw)) -> searchOptIn (fst (submit cat st raw)) = true).
Proof.
  unfold submit.
  destruct (truthy (trim raw)) eqn:Htr; cbn [negb].
  2:{ simpl. split; [intros Ho; split; [exact Ho | intros []]|]. split; [auto | intros q []]. }
  set (st1 := add_msgs st 1).
  assert (E1 : searchOptIn st1 = searchOptIn st) by reflexivity.
  assert (E2 : awaitingSearchConsent st1 = awaitingSearchConsent st) by reflexivity.
  destruct (isSocialCheckIn (trim raw)) eqn:Hsc.
  { destruct (run_fields st1 [Say SocialAck]) as (F1 & _ & _ & _ & F5).
    rewrite F1, F5, E1. split; [intros Ho; split; [exact Ho | simpl; intros [E|[]]; discriminate]|].
    split; [auto | simpl; intros q [E|[]]; discriminate]. }
  destruct (isGreeting (trim raw)) eqn:Hg.
  { cbn [fst snd searchOptIn]. split; [intros Ho; split; [exact Ho|]|].
    - destruct (histLen st1 - lastGreetTurn st1 <=? 2); simpl; intros [E|[]]; discriminate.
    - split; [auto|]. intros q Hq.
      destruct (histLen st1 - lastGreetTurn st1 <=? 2); simpl in Hq; destruct Hq as [E|[]]; discriminate. }
  rewrite E2. destruct (awaitingSearchConsent st) as [original|] eqn:Ha.
  - destruct (test rx_yes (trim raw)) eqn:Hy.
    + destruct (run_fields (set_consent st1 true None) (handleInfoLike cat original (detectIntent original)))
        as (F1 & _ & _ & _ & F5).
      rewrite F1, F5. cbn [searchOptIn set_consent].
      split; [intros _; split; [reflexivity|]|].
      * destruct (handleInfoLike_shape cat original (detectIntent original)) as [[p ->]| ->];
          simpl; intros [E|[]]; discriminate.
      * split; [intros _; right; split; [congruence | reflexivity] | auto].
    + destruct (test rx_no (trim raw)) eqn:Hn.
      * destruct (run_fields (set_consent st1 (searchOptIn st1) None) [Say ConsentDeclined])
          as (F1 & _ & _ & _ & F5).
        rewrite F1, F5. cbn [searchOptIn set_consent]. rewrite E1.
        split; [intros Ho; split; [exact Ho | simpl; intros [E|[]]; discriminate]|].
        split; [auto | simpl; intros q [E|[]]; discriminate].
      * set (st2 := set_consent st1 (searchOptIn st1) None).
        assert (E3 : searchOptIn st2 = searchOptIn st) by reflexivity.
        destruct (after_consent_cases cat st2 (trim raw)) as [(es & -> & Hna & Hws) | (Hf & ->)].
        -- destruct (run_fields st2 es) as (F1 & _ & _ & _ & F5). rewrite F1, F5, E3.
           split; [intros Ho; split; [exact Ho | exact Hna]|].
           split; [auto | intros q Hq; rewrite <- E3; exact (Hws q Hq)].
        -- destruct (run_fields (set_consent st2 (searchOptIn st2) (Some (trim raw))) [Say AskConsent])
             as (F1 & _ & _ & _ & F5).
           rewrite F1, F5. cbn [searchOptIn set_consent]. rewrite Hf.
           split; [intros Ho; congruence|].
           split; [intros Ho; discriminate | simpl; intros q [E|[]]; discriminate].
  - destruct (after_consent_cases cat st1 (trim raw)) as [(es & -> & Hna & Hws) | (Hf & ->)].
    + destruct (run_fields st1 es) as (F1 & _ & _ & _ & F5). rewrite F1, F5, E1.
      split; [intros Ho; split; [exact Ho | exact Hna]|].
      split; [auto | intros q Hq; rewrite <- E1; exact (Hws q Hq)].
    + destruct (run_fields (set_consent st1 (searchOptIn st1) (Some (trim raw))) [Say AskConsent])
        as (F1 & _ & _ & _ & F5).
      rewrite F1, F5. cbn [searchOptIn set_consent]. rewrite Hf.
      split; [intros Ho; congruence|].
      split; [intros Ho; discriminate | simpl; intros q [E|[]]; discriminate].
Qed.

Lemma after_consent_hist `{Platform} (cat : list topic) (st : session) (text : jstr) :
  histLen st = 6 ->
  histLen (fst (after_consent cat st text)) = 6 /\
  lastGreetTurn (fst (after_consent cat st text)) = lastGreetTurn st.
Proof.
  intros Hh. destruct (after_consent_cases cat st text) as [(es & -> & _) | (_ & ->)].
  - destruct (run_fields st es) as (_ & _ & F3 & F4 & _). split; [exact (F4 Hh) | exact F3].
  - destruct (run_fields (set_consent st (searchOptIn st) (Some text)) [Say AskConsent])
      as (_ & _ & F3 & F4 & _). split; [exact (F4 Hh) | exact F3].
Qed.

(** Once the six-message window is full and a greeting has been answered,
    the history length and the greeting turn stay at 6. *)
Lemma submit_greet_sat `{Platform} (cat : list topic) (st : session) (raw : jstr) :
  histLen st = 6 -> lastGreetTurn st = 6 ->
  histLen (fst (submit cat st raw)) = 6 /\ lastGreetTurn (fst (submit cat st raw)) = 6 /\
  (truthy (trim raw) = true -> isSocialCheckIn (trim raw) = false -> isGreeting (trim raw) = true ->
   snd (submit cat st raw) = [Say GreetAgain]).
Proof.
  intros Hh Hl. unfold submit.
  destruct (truthy (trim raw)) eqn:Htr; cbn [negb].
  2:{ simpl. split; [exact Hh|]. split; [exact Hl | discriminate]. }
  set (st1 := add_msgs st 1).
  assert (H1 : histLen st1 = 6) by (unfold st1, add_msgs; simpl; rewrite Hh; reflexivity).
  assert (L1 : lastGreetTurn st1 = 6) by exact Hl.
  destruct (isSocialCheckIn (trim raw)) eqn:Hsc.
  { destruct (run_fields st1 [Say SocialAck]) as (_ & _ & F3 & F4 & _).
    split; [exact (F4 H1)|]. split; [rewrite F3; exact L1 | discriminate]. }
  destruct (isGreeting (trim raw)) eqn:Hg.
  { cbn [fst snd histLen lastGreetTurn].
    assert (H2 : histLen (add_msgs st1 1) = 6)
      by (change (Z.min 6 (histLen st1 + 1) = 6); rewrite H1; reflexivity).
    rewrite H2. split; [reflexivity|]. split; [reflexivity|].
    intros _ _ _. unfold st1, add_msgs. cbn [histLen lastGreetTurn]. rewrite Hh, Hl. reflexivity. }
  assert (HR : forall p : session * list effect,
             histLen (fst p) = 6 /\ lastGreetTurn (fst p) = 6 ->
             histLen (fst p) = 6 /\ lastGreetTurn (fst p) = 6 /\
             (true = true -> false = false -> false = true -> snd p = [Say GreetAgain]))
    by (intros p [A B]; split; [exact A|]; split; [exact B | discriminate]).
  apply HR. clear HR.
  destruct (awaitingSearchConsent st1) as [original|].
  - destruct (test rx_yes (trim raw)).
    + destruct (run_fields (set_consent st1 true None) (handleInfoLike cat original (detectIntent original)))
        as (_ & _ & F3 & F4 & _). split; [apply F4; exact H1 | rewrite F3; exact L1].
    + destruct (test rx_no (trim raw)).
      * destruct (run_fields (set_consent st1 (searchOptIn st1) None) [Say ConsentDeclined])
          as (_ & _ & F3 & F4 & _). split; [apply F4; exact H1 | rewrite F3; exact L1].
      * destruct (after_consent_hist cat (set_consent st1 (searchOptIn st1) None) (trim raw) H1)
          as [A B]. split; [exact A | rewrite B; exact L1].
  - destruct (after_consent_hist cat st1 (trim raw) H1) as [A B].
    split; [exact A | rewrite B; exact L1].
Qed.

(** The first greeting once the window is (about to be) full. *)
Lemma submit_greet_first `{Platform} (cat : list topic) (st : session) (raw : jstr) :
  5 <= histLen st <= 6 ->
  truthy (trim raw) = true -> isSocialCheckIn (trim raw) = false -> isGreeting (trim raw) = true ->
  histLen (fst (submit cat st raw)) = 6 /\ lastGreetTurn (fst (submit cat st raw)) = 6.
Proof.
  intros Hh Ht Hs Hg. unfold submit. rewrite Ht, Hs, Hg. cbn [negb fst histLen lastGreetTurn].
  unfold add_msgs; cbn [histLen]. split; lia.
Qed.

(** X7: once web-search consent is granted, it is never withdrawn: over any
    sequence of submitted messages the session keeps [searchOptIn] true and
    no turn asks for consent again. *)
Theorem consent_is_kept `{Platform} (cat : list topic) (st : session) (msgs : list jstr) :
  searchOptIn st = true ->
  searchOptIn (fst (submit_all cat st msgs)) = true /\
  Forall (fun es => ~ In (Say AskConsent) es) (snd (submit_all cat st msgs)).
Proof.
  revert st; induction msgs as [|m ms IH]; intros st Ho; simpl.
  - split; [exact Ho | constructor].
  - destruct (submit_consent cat st m) as [C _].
    destruct (C Ho) as [C1 C2].
    destruct (submit cat st m) as [st1 es] eqn:E. simpl in C1, C2.
    destruct (IH st1 C1) as [I1 I2].
    destruct (submit_all cat st1 ms) as [st2 ess]. simpl in *.
    split; [exact I1 | constructor; assumption].
Qed.

(** X8: a submitted message starts a web search only with consent: the
    session after the turn has [searchOptIn] true, and either it was already
    true or a consent question was pending and the trimmed message matches
    the affirmative lexicon. *)
Theorem web_search_needs_consent `{Platform} (cat : list topic) (st : session) (raw : jstr) (q : jstr) :
  In (WebSearch q) (snd (submit cat st raw)) ->
  searchOptIn (fst (submit cat st raw)) = true /\
  (searchOptIn st = true \/ (awaitingSearchConsent st <> None /\ test rx_yes (trim raw) = true)).
Proof.
  intros Hq. destruct (submit_consent cat st raw) as (_ & C2 & C3).
  pose proof (C3 q Hq) as Ho. split; [exact Ho | exact (C2 Ho)].
Qed.

(** X9: once the history window holds five or six messages, a greeting is
    answered and every later greeting (not a social check-in) is answered
    with the short greet-again reply, however many messages separate them:
    [chatHistory.length] is capped at six and stops growing, so
    [chatHistory.length - lastGreetTurn] stays 0. *)
Theorem greeting_saturates `{Platform} (cat : list topic) (st : session) (g : jstr) (msgs : list jstr) :
  5 <= histLen st <= 6 ->
  truthy (trim g) = true -> isSocialCheckIn (trim g) = false -> isGreeting (trim g) = true ->
  forall i m, nth_error msgs i = Some m ->
  truthy (trim m) = true -> isSocialCheckIn (trim m) = false -> isGreeting (trim m) = true ->
  nth_error (snd (submit_all cat st (g :: msgs))) (S i) = Some [Say GreetAgain].
Proof.
  intros Hh Hgt Hgs Hgg. cbn [submit_all].
  destruct (submit_greet_first cat st g Hh Hgt Hgs Hgg) as [A B].
  destruct (submit cat st g) as [st1 es1]. simpl in A, B.
  assert (Hall : forall ms st', histLen st' = 6 -> lastGreetTurn st' = 6 ->
            forall i m, nth_error ms i = Some m ->
            truthy (trim m) = true -> isSocialCheckIn (trim m) = false -> isGreeting (trim m) = true ->
            nth_error (snd (submit_all cat st' ms)) i = Some [Say GreetAgain]).
  { induction ms as [|m0 ms IH]; intros st' Hh' Hl' i m Hi Hmt Hms Hmg; [destruct i; discriminate|].
    cbn [submit_all].
    destruct (submit_greet_sat cat st' m0 Hh' Hl') as (S1 & S2 & S3).
    destruct (submit cat st' m0) as [st2 es2] eqn:E. simpl in S1, S2, S3.
    specialize (IH st2 S1 S2).
    destruct (submit_all cat st2 ms) as [st3 ess] eqn:E2. simpl in IH |- *.
    destruct i as [|i]; simpl in Hi |- *.
    - injection Hi as <-. rewrite (S3 Hmt Hms Hmg). reflexivity.
    - exact (IH i m Hi Hmt Hms Hmg). }
  intros i m Hi Hmt Hms Hmg. pose proof (Hall msgs st1 A B i m Hi Hmt Hms Hmg) as R.
  destruct (submit_all cat st1 msgs) as [st2 ess]. exact R.
Qed.

Lemma existsb_eqb_In (x : Z) (l : list Z) : existsb (Z.eqb x) l = true <-> In x l.
Proof.
  rewrite existsb_exists. split.
  - intros (y & Hy & E). apply Z.eqb_eq in E. subst. exact Hy.
  - intros Hx. exists x. split; [exact Hx | apply Z.eqb_refl].
Qed.

(** X10: after its guards, /api/fetch makes one upstream request, or two
    (the second with a same-site Referer header) exactly when the first answers
    403, 406 or 451.  It returns an article only for an upstream status
    below 400, a content type that is not PDF for a URL not ending in .pdf,
    a content type naming HTML or XHTML, and the result of the extraction;
    any upstream status from 400 up is mapped by [upstream_error_code]. *)
Theorem fetch_pipeline `{Platform} (url : jstr) (get : bool -> get_result)
    (parse : jstr -> jstr * page_dom) (maxChars : option Z) :
  let res := fetch_after_guards url get parse maxChars in
  (fst res = [false] \/ fst res = [false; true]) /\
  (fst res = [false; true] <-> exists r, get false = GotResp r /\ In (up_status r) [403; 406; 451]) /\
  (forall t n tr, snd res = FArticle t n tr ->
     exists r, snd (fetchHTMLWithRetry get) = GotResp r /\ up_status r < 400 /\
       includes (up_ctype r) (js "application/pdf") = false /\
       ends_with (toLowerCase url) (js ".pdf") = false /\
       (includes (up_ctype r) (js "text/html")
        || includes (up_ctype r) (js "application/xhtml+xml")) = true /\
       extract_article (fst (parse (up_data r))) (snd (parse (up_data r))) maxChars
         = ArticleJson t n tr) /\
  (forall r, snd (fetchHTMLWithRetry get) = GotResp r -> 400 <= up_status r ->
     snd res = FError (upstream_error_code (up_status r))).
Proof.
  cbv zeta. unfold fetch_after_guards.
  assert (Hreq : (fst (fetchHTMLWithRetry get) = [false] \/ fst (fetchHTMLWithRetry get) = [false; true]) /\
                 (fst (fetchHTMLWithRetry get) = [false; true] <->
                  exists r, get false = GotResp r /\ In (up_status r) [403; 406; 451])).
  { unfold fetchHTMLWithRetry. destruct (get false) as [r|m s] eqn:E1.
    - destruct (existsb (Z.eqb (up_status r)) [403; 406; 451]) eqn:E2; cbn [fst snd].
      + split; [right; reflexivity|]. split; [intros _; exists r; split; [reflexivity|] | reflexivity].
        apply (proj1 (existsb_eqb_In _ _)). exact E2.
      + split; [left; reflexivity|]. split; [discriminate|].
        intros (r' & E & Hin). injection E as <-. apply existsb_eqb_In in Hin. congruence.
    - simpl. split; [left; reflexivity|]. split; [discriminate | intros (r' & E & _); discriminate]. }
  destruct (fetchHTMLWithRetry get) as [reqs o]. cbn [fst snd] in *.
  destruct Hreq as [R1 R2]. split; [exact R1|]. split; [exact R2|].
  destruct o as [r|m s].
  - split.
    + intros t n tr Hres. exists r. split; [reflexivity|].
      destruct (Z.leb_spec 400 (up_status r)); [discriminate|].
      split; [lia|].
      destruct (includes (up_ctype r) (js "application/pdf")) eqn:Ep; [discriminate|].
      destruct (ends_with (toLowerCase url) (js ".pdf")) eqn:Eu; [discriminate|].
      split; [reflexivity|]. split; [reflexivity|].
      destruct (includes (up_ctype r) (js "text/html")) eqn:Eh;
      destruct (includes (up_ctype r) (js "application/xhtml+xml")) eqn:Ex;
        cbn [negb andb orb] in Hres; try discriminate;
        (split; [reflexivity|]);
        destruct (parse (up_data r)) as [rt doc]; cbn [fst snd];
        destruct (extract_article rt doc maxChars); congruence.
    + intros r' E Hs. injection E as <-.
      destruct (Z.leb_spec 400 (up_status r)); [reflexivity | lia].
  - split; [intros t n tr Hres | intros r' E; discriminate].
    destruct (_ || _); [discriminate|]. discriminate.
Qed.





(** X12: in appv1, a message that misses the hard-safety regex and that the
    router labels greeting, gratitude, goodbye, clarify or basic_chat gets
    neither the crisis reply nor the emergency route reply, whatever
    [detectIntent] says of it; under the basic_chat label the handler calls
    the undefined [chatReply] and throws a ReferenceError. *)
Theorem v1_crisis_reply_needs_router `{Platform} (cat : list topic) (searchOptIn : bool)
    (text : jstr) (rt : route) :
  test rx_v1_hardSafety text = false ->
  In (action rt) [js "greeting"; js "gratitude"; js "goodbye"; js "clarify"; js "basic_chat"] ->
  ~ In (V1Say Crisis) (snd (v1_dispatch cat searchOptIn text rt)) /\
  ~ In V1SayRouteEmergency (snd (v1_dispatch cat searchOptIn text rt)) /\
  (action rt = js "basic_chat" ->
   v1_dispatch cat searchOptIn text rt = (None, [V1RouteLLM text; V1ReferenceError (js "chatReply")])).
Proof.
  intros Hs Ha. unfold v1_dispatch. rewrite Hs.
  destruct Ha as [Ha|[Ha|[Ha|[Ha|[Ha|[]]]]]]; rewrite <- Ha; cbn [snd];
    (split; [simpl; intros [E|[E|[]]]; discriminate |
             split; [simpl; intros [E|[E|[]]]; discriminate |
                     intros Hb; first [reflexivity | vm_compute in Hb; discriminate]]]).
Qed.

Lemma ends_sent_cons (x : Z) (l : jstr) : l <> [] -> ends_sent (x :: l) = ends_sent l.
Proof. destruct l; [congruence | reflexivity]. Qed.

Lemma ends_sent_snoc (l : jstr) (x : Z) : ends_sent (l ++ [x]) = is_sent_end x.
Proof.
  induction l as [|y l IH]; [reflexivity|].
  cbn [app]. rewrite ends_sent_cons by (destruct l; discriminate). exact IH.
Qed.

Lemma no_end_ws_snoc (l : jstr) (c : Z) :
  no_end_ws (l ++ [c]) = no_end_ws l && negb (ends_sent l && is_ws c).
Proof.
  induction l as [|x l IH]; [reflexivity|].
  destruct l as [|y l].
  - cbn. rewrite andb_true_r. reflexivity.
  - change ((x :: y :: l) ++ [c]) with (x :: y :: (l ++ [c])).
    change (no_end_ws (x :: y :: (l ++ [c])))
      with (negb (is_sent_end x && is_ws y) && no_end_ws (y :: l ++ [c])).
    change (y :: l ++ [c]) with ((y :: l) ++ [c]). rewrite IH.
    rewrite (ends_sent_cons x (y :: l)) by discriminate.
    cbn [no_end_ws]. rewrite andb_assoc. reflexivity.
Qed.

Lemma no_end_ws_app_l (a b : jstr) : no_end_ws (a ++ b) = true -> no_end_ws a = true.
Proof.
  induction a as [|x a IH]; intros H; [reflexivity|].
  destruct a as [|y a]; [reflexivity|].
  change ((x :: y :: a) ++ b) with (x :: y :: (a ++ b)) in H.
  cbn [no_end_ws] in H |- *. apply andb_true_iff in H as [H1 H2].
  rewrite H1. apply IH. exact H2.
Qed.

Lemma no_end_ws_app_r (a b : jstr) : no_end_ws (a ++ b) = true -> no_end_ws b = true.
Proof.
  induction a as [|x a IH]; intros H; [exact H|].
  apply IH. cbn [app] in H. destruct (a ++ b) as [|y r]; [reflexivity|].
  cbn [no_end_ws] in H. apply andb_true_iff in H as [_ H]. exact H.
Qed.

Lemma length_drop_ws (l : jstr) : (length (drop_ws l) <= length l)%nat.
Proof. induction l as [|c l IH]; [reflexivity|]. simpl. destruct (is_ws c); simpl; lia. Qed.

Lemma trim_sub (s : jstr) : exists a b, s = a ++ trim s ++ b.
Proof.
  destruct (drop_ws_split s) as [a Ea].
  destruct (drop_ws_split (rev (drop_ws s))) as [b Eb].
  exists a, (rev b). unfold trim. rewrite Ea at 1. f_equal.
  rewrite <- rev_app_distr, <- Eb, rev_involutive. reflexivity.
Qed.

Lemma no_end_ws_trim (s : jstr) : no_end_ws s = true -> no_end_ws (trim s) = true.
Proof.
  intros H. destruct (trim_sub s) as (a & b & E). rewrite E in H.
  apply no_end_ws_app_r in H. apply no_end_ws_app_l in H. exact H.
Qed.

Lemma trimmed_head (c : Z) (r : jstr) : trim (c :: r) = c :: r -> is_ws c = false.
Proof.
  intros H. destruct (is_ws c) eqn:Hc; [|reflexivity]. exfalso.
  assert (Hl : length (trim (c :: r)) = length (c :: r)) by (rewrite H; reflexivity).
  unfold trim in Hl. rewrite length_rev in Hl. cbn [drop_ws] in Hl. rewrite Hc in Hl.
  pose proof (length_drop_ws (rev (drop_ws r))). rewrite length_rev in H0.
  pose proof (length_drop_ws r). simpl in Hl. lia.
Qed.

(** Trimming a piece whose last unit is not whitespace keeps that unit last. *)
Lemma trim_snoc_nonws (a : jstr) (x : Z) :
  is_ws x = false -> exists a', trim (a ++ [x]) = a' ++ [x].
Proof.
  intros Hx. destruct (drop_ws_block a [] [] x Hx) as [a1 E1]. cbn [app] in E1.
  exists a1. unfold trim. rewrite E1. rewrite rev_app_distr. cbn [rev app drop_ws].
  rewrite Hx. cbn [rev]. rewrite rev_involutive. reflexivity.
Qed.

Lemma sent_split_nonempty (s : jstr) : forall pe is cur, sent_split_aux pe is cur s <> [].
Proof.
  induction s as [|c s IH]; intros pe is cur; [discriminate|].
  cbn [sent_split_aux]. destruct (is_ws c && (pe || is)); [destruct is|]; try apply IH.
  discriminate.
Qed.

Lemma removelast_cons {A} (x : A) (l : list A) : l <> [] -> removelast (x :: l) = x :: removelast l.
Proof. destruct l; [congruence | reflexivity]. Qed.

Lemma sent_split_inv (s : jstr) : forall pe is cur,
  (is = true -> cur = []) -> pe = ends_sent (rev cur) -> no_end_ws (rev cur) = true ->
  Forall (fun p => no_end_ws p = true) (sent_split_aux pe is cur s) /\
  Forall (fun p => ends_sent p = true) (removelast (sent_split_aux pe is cur s)).
Proof.
  induction s as [|c s IH]; intros pe is cur His Hpe Hno.
  - cbn. split; [constructor; [exact Hno | constructor] | constructor].
  - cbn [sent_split_aux].
    destruct (is_ws c) eqn:Hc; destruct pe eqn:Hp; destruct is eqn:Hi; cbn [andb orb].
    + rewrite (His eq_refl). apply IH; [reflexivity | reflexivity | reflexivity].
    + destruct (IH false true [] (fun _ => eq_refl) eq_refl eq_refl) as [A B].
      split; [constructor; assumption|].
      rewrite removelast_cons by apply sent_split_nonempty. constructor; [|exact B].
      symmetry. exact Hpe.
    + rewrite (His eq_refl). apply IH; [reflexivity | reflexivity | reflexivity].
    + apply IH; [discriminate | cbn [rev]; rewrite ends_sent_snoc; reflexivity |].
      cbn [rev]. rewrite no_end_ws_snoc, Hno, <- Hpe. reflexivity.
    + rewrite (His eq_refl). apply IH; [discriminate | reflexivity | reflexivity].
    + apply IH; [discriminate | cbn [rev]; rewrite ends_sent_snoc; reflexivity |].
      cbn [rev]. rewrite no_end_ws_snoc, Hno, Hc. rewrite andb_false_r. reflexivity.
    + rewrite (His eq_refl). apply IH; [discriminate | reflexivity | reflexivity].
    + apply IH; [discriminate | cbn [rev]; rewrite ends_sent_snoc; reflexivity |].
      cbn [rev]. rewrite no_end_ws_snoc, Hno, Hc. rewrite andb_false_r. reflexivity.
Qed.

Lemma Forall_removelast {A} (P : A -> Prop) (l : list A) : Forall P l -> Forall P (removelast l).
Proof.
  induction l as [|x l IH]; intros H; [constructor|].
  inversion H; subst. destruct l as [|y l]; [constructor|].
  rewrite removelast_cons by discriminate. constructor; [assumption | apply IH; assumption].
Qed.

Lemma sent_end_not_ws (x : Z) : is_sent_end x = true -> is_ws x = false.
Proof.
  unfold is_sent_end. intros H.
  repeat (apply orb_true_iff in H as [H|H]); apply Z.eqb_eq in H; subst; reflexivity.
Qed.

Lemma ends_sent_split (p : jstr) : ends_sent p = true -> exists a x, p = a ++ [x] /\ is_sent_end x = true.
Proof.
  intros H. destruct p as [|y p] using rev_ind; [discriminate|].
  rewrite ends_sent_snoc in H. exists p, y. split; [reflexivity | exact H].
Qed.

Lemma trim_ends_sent (p : jstr) :
  ends_sent p = true -> ends_sent (trim p) = true /\ truthy (trim p) = true.
Proof.
  intros H. destruct (ends_sent_split p H) as (a & x & -> & Hx).
  destruct (trim_snoc_nonws a x (sent_end_not_ws x Hx)) as [a' ->].
  rewrite ends_sent_snoc. split; [exact Hx | destruct a'; reflexivity].
Qed.

Lemma part_ok_trim (p : jstr) : truthy (trim p) = true -> no_end_ws p = true -> part_ok (trim p).
Proof.
  intros Ht Hn. split; [exact Ht|]. split; [apply trim_idem | apply no_end_ws_trim, Hn].
Qed.

Lemma sentence_parts_ok (s : jstr) : parts_ok (sentence_parts s).
Proof.
  unfold sentence_parts, sent_split.
  destruct (sent_split_inv s false false [] (fun H => match H with end) eq_refl eq_refl) as [A B].
  assert (HR : sent_split_aux false false [] s <> []) by apply sent_split_nonempty.
  destruct (exists_last HR) as (R0 & l & E). rewrite E in A, B |- *. clear E HR.
  rewrite removelast_last in B.
  apply Forall_app in A as [A0 Al]. inversion Al as [|? ? Hl _]; subst.
  rewrite map_app, filter_app. cbn [map filter].
  assert (HT : filter truthy (map trim R0) = map trim R0).
  { apply forallb_filter_id, forallb_forall. intros p Hp.
    apply in_map_iff in Hp as (q & <- & Hq).
    rewrite Forall_forall in B. exact (proj2 (trim_ends_sent q (B q Hq))). }
  rewrite HT.
  assert (HE : Forall (fun p => ends_sent p = true) (map trim R0)).
  { apply Forall_map. rewrite Forall_forall in B |- *. intros q Hq.
    exact (proj1 (trim_ends_sent q (B q Hq))). }
  assert (HP : Forall part_ok (map trim R0)).
  { apply Forall_map. rewrite Forall_forall in A0, B |- *. intros q Hq.
    apply part_ok_trim; [exact (proj2 (trim_ends_sent q (B q Hq))) | exact (A0 q Hq)]. }
  destruct (truthy (trim l)) eqn:Ht.
  - split.
    + apply Forall_app. split; [exact HP | constructor; [apply part_ok_trim; assumption | constructor]].
    + rewrite removelast_last. exact HE.
  - rewrite app_nil_r. split; [exact HP | apply Forall_removelast, HE].
Qed.

Lemma sent_split_chunk (p : jstr) : forall pe cur rest,
  (pe = true -> forall c r, p = c :: r -> is_ws c = false) -> no_end_ws p = true -> p <> [] ->
  sent_split_aux pe false cur (p ++ rest) = sent_split_aux (ends_sent p) false (rev p ++ cur) rest.
Proof.
  induction p as [|c p IH]; intros pe cur rest Hpe Hno Hne; [congruence|].
  cbn [app sent_split_aux].
  replace (is_ws c && (pe || false)) with false
    by (destruct pe; [rewrite (Hpe eq_refl c p eq_refl) | rewrite andb_false_r]; reflexivity).
  destruct p as [|y p].
  - reflexivity.
  - rewrite IH.
    + rewrite (ends_sent_cons c (y :: p)) by discriminate. cbn [rev]. rewrite <- !app_assoc. reflexivity.
    + intros Hc c' r E. injection E as <- <-. cbn [no_end_ws] in Hno.
      rewrite Hc in Hno. destruct (is_ws y); [discriminate | reflexivity].
    + cbn [no_end_ws] in Hno. apply andb_true_iff in Hno as [_ Hno]. exact Hno.
    + discriminate.
Qed.

Lemma join_sp_cons (q : jstr) (L : list jstr) : exists t, join_sp (q :: L) = q ++ t.
Proof. destruct L; [exists []; rewrite app_nil_r; reflexivity | eexists; reflexivity]. Qed.

Lemma sent_split_join (L : list jstr) :
  parts_ok L -> L <> [] -> sent_split (join_sp L) = L.
Proof.
  unfold sent_split. induction L as [|p L IH]; intros [HP HE] Hne; [congruence|].
  inversion HP as [|? ? Hp HL]; subst. destruct Hp as (Hpt & Hptr & Hpn).
  assert (Hp0 : p <> []) by (destruct p; discriminate).
  destruct L as [|q L].
  - cbn [join_sp]. rewrite <- (app_nil_r p) at 1.
    rewrite sent_split_chunk by (try discriminate; assumption).
    cbn. rewrite app_nil_r, rev_involutive. reflexivity.
  - rewrite removelast_cons in HE by discriminate.
    inversion HE as [|? ? Hpe HE']; subst.
    change (join_sp (p :: q :: L)) with (p ++ 32 :: join_sp (q :: L)).
    rewrite sent_split_chunk by (try discriminate; assumption).
    rewrite Hpe. cbn [sent_split_aux]. replace (is_ws 32) with true by reflexivity. cbn [andb orb].
    rewrite app_nil_r, rev_involutive. f_equal.
    inversion HL as [|? ? Hq _]; subst. destruct Hq as (Hqt & Hqtr & _).
    destruct q as [|c q]; [discriminate|].
    destruct (join_sp_cons (c :: q) L) as [t Et]. rewrite Et. cbn [app sent_split_aux].
    rewrite (trimmed_head c q Hqtr). cbn [andb].
    assert (E2 : sent_split_aux false false [] (c :: q ++ t)
                 = sent_split_aux (is_sent_end c) false [c] (q ++ t))
      by (cbn [sent_split_aux]; rewrite andb_false_r; reflexivity).
    rewrite <- E2.
    change (c :: q ++ t) with ((c :: q) ++ t). rewrite <- Et.
    apply IH; [split; assumption | discriminate].
Qed.

Lemma sentence_parts_join (L : list jstr) :
  parts_ok L -> L <> [] -> sentence_parts (join_sp L) = L.
Proof.
  intros HL Hne. unfold sentence_parts. rewrite (sent_split_join L HL Hne).
  destruct HL as [HP _]. induction HP as [|p L' Hp HP IH]; [reflexivity|].
  destruct Hp as (Ht & Htr & _). cbn [map filter]. rewrite Htr, Ht.
  destruct L' as [|q L'']; [reflexivity|]. rewrite IH by discriminate. reflexivity.
Qed.

Lemma leb_range_eqb (a x : Z) : (a <=? x) && (x <=? a) = (x =? a).
Proof.
  destruct (Z.leb_spec a x), (Z.leb_spec x a), (Z.eqb_spec x a); simpl; try reflexivity; lia.
Qed.

Lemma test_endsSentence (s : jstr) : test rx_endsSentence s = ends_sent s.
Proof.
  unfold test.
  replace (parse_re (rx_src rx_endsSentence))
    with (Some (RSeq (RClass false [CRange 46 46; CRange 33 33; CRange 63 63]) (RSeq REol REmpty)))
    by (symmetry; parse_now).
  replace (rx_i rx_endsSentence) with false by reflexivity. generalize (@nil Z) as pre.
  induction s as [|x s IH]; intros pre; [reflexivity|].
  cbn [test_from mt]. rewrite IH.
  destruct s as [|y s].
  - cbn [ends_sent]. unfold class_has, is_sent_end. cbn [existsb citem_has xorb].
    rewrite !leb_range_eqb, !andb_false_l, !orb_false_r.
    replace (ch ".") with 46 by reflexivity. replace (ch "!") with 33 by reflexivity.
    replace (ch "?") with 63 by reflexivity.
    destruct (x =? 46), (x =? 33), (x =? 63); reflexivity.
  - rewrite !andb_false_r. reflexivity.
Qed.

Lemma Forall_removelast_firstn {A} (P : A -> Prop) (n : nat) (l : list A) :
  Forall P (removelast l) -> Forall P (removelast (firstn n l)).
Proof.
  revert n; induction l as [|x l IH]; intros n H; [destruct n; constructor|].
  destruct n as [|n]; [constructor|]. cbn [firstn].
  destruct l as [|y l]; [destruct n; constructor|].
  rewrite removelast_cons in H by discriminate. inversion H; subst.
  destruct (firstn n (y :: l)) eqn:E; [constructor|].
  rewrite removelast_cons by discriminate. constructor; [assumption|].
  rewrite <- E. apply IH. assumption.
Qed.

Lemma parts_ok_firstn (n : nat) (L : list jstr) : parts_ok L -> parts_ok (firstn n L).
Proof.
  intros [A B]. split; [apply Forall_firstn_gen, A | apply Forall_removelast_firstn, B].
Qed.

Lemma trim_nonws_ends (c x : Z) (r : jstr) :
  is_ws c = false -> is_ws x = false -> trim (c :: r ++ [x]) = c :: r ++ [x].
Proof.
  intros Hc Hx. unfold trim. cbn [drop_ws]. rewrite Hc.
  change (c :: r ++ [x]) with ((c :: r) ++ [x]). rewrite rev_app_distr. cbn [app rev drop_ws].
  rewrite Hx. change (x :: rev r ++ [c]) with ([x] ++ rev (c :: r)).
  rewrite rev_app_distr, rev_involutive. reflexivity.
Qed.

Lemma part_ok_close (l : jstr) : part_ok l -> part_ok (close_sentence l).
Proof.
  intros (Ht & Htr & Hn). unfold close_sentence. destruct (ends_sent l) eqn:He; [split; auto|].
  destruct l as [|c r]; [discriminate|].
  split; [reflexivity|]. split.
  - change ((c :: r) ++ [ch "."]) with (c :: r ++ [ch "."]).
    apply trim_nonws_ends; [exact (trimmed_head c r Htr) | reflexivity].
  - rewrite no_end_ws_snoc, Hn, He. reflexivity.
Qed.

Lemma parts_ok_close (init : list jstr) (l : jstr) :
  parts_ok (init ++ [l]) -> parts_ok (init ++ [close_sentence l]).
Proof.
  intros [A B]. rewrite removelast_last in B. split; [|rewrite removelast_last; exact B].
  apply Forall_app in A as [A1 A2]. apply Forall_app. split; [exact A1|].
  inversion A2; subst. constructor; [apply part_ok_close; assumption | constructor].
Qed.

Lemma join_sp_snoc (init : list jstr) (l : jstr) :
  join_sp (init ++ [l]) = match init with [] => l | _ => join_sp init ++ 32 :: l end.
Proof.
  induction init as [|p init IH]; [reflexivity|].
  cbn [app]. destruct init as [|q init]; [reflexivity|].
  change (join_sp (p :: (q :: init) ++ [l])) with (p ++ 32 :: join_sp ((q :: init) ++ [l])).
  rewrite IH. change (join_sp (p :: q :: init)) with (p ++ 32 :: join_sp (q :: init)).
  rewrite <- app_assoc. reflexivity.
Qed.

Lemma ends_sent_app (a l : jstr) : l <> [] -> ends_sent (a ++ l) = ends_sent l.
Proof.
  intros Hl. induction a as [|x a IH]; [reflexivity|].
  cbn [app]. rewrite ends_sent_cons by (destruct a, l; discriminate || congruence). exact IH.
Qed.

Lemma tidy_shape (text : jstr) (n : nat) :
  truthy text = true ->
  let ps := firstn n (sentence_parts text) in
  let out := match ps with [] => [[ch "."]] | _ => removelast ps ++ [close_sentence (last ps [])] end in
  tidyToSentenceLimit text n = join_sp out /\
  sentence_parts (tidyToSentenceLimit text n) = out /\
  ends_sent (tidyToSentenceLimit text n) = true.
Proof.
  intros Ht ps out. unfold tidyToSentenceLimit. rewrite Ht. cbn [negb].
  rewrite test_endsSentence. fold ps.
  assert (Hok : parts_ok ps) by apply parts_ok_firstn, sentence_parts_ok.
  subst out. destruct ps as [|p0 ps0] eqn:Eps.
  - split; [reflexivity|]. split; reflexivity.
  - rewrite <- Eps in Hok |- *.
    assert (Hne : ps <> []) by (rewrite Eps; discriminate).
    destruct (exists_last Hne) as (init & l & E). rewrite E in Hok |- *.
    rewrite removelast_last, last_last.
    assert (Hl : l <> []).
    { destruct Hok as [A _]. apply Forall_app in A as [_ A]. inversion A as [|? ? (Hlt & _) _].
      destruct l; [discriminate | congruence]. }
    assert (Hj : forall x, join_sp (init ++ [l]) ++ x = join_sp (init ++ [l ++ x])).
    { intros x. rewrite !join_sp_snoc. destruct init; [reflexivity|]. rewrite <- app_assoc. reflexivity. }
    assert (Hends : ends_sent (join_sp (init ++ [l])) = ends_sent l).
    { rewrite join_sp_snoc. destruct init; [reflexivity|].
      rewrite ends_sent_app by discriminate. apply ends_sent_cons, Hl. }
    rewrite Hends. unfold close_sentence. destruct (ends_sent l) eqn:He.
    + split; [reflexivity|]. split; [|rewrite Hends; reflexivity].
      apply sentence_parts_join; [exact Hok | destruct init; discriminate].
    + rewrite Hj. split; [reflexivity|]. split.
      * apply sentence_parts_join; [|destruct init; discriminate].
        pose proof (parts_ok_close init l Hok) as Hc. unfold close_sentence in Hc. rewrite He in Hc. exact Hc.
      * rewrite <- Hj. apply ends_sent_snoc.
Qed.

(** X5: [tidyToSentenceLimit] is idempotent for every limit: tidying a
    tidied text changes nothing. *)
Theorem tidy_idempotent (text : jstr) (n : nat) :
  tidyToSentenceLimit (tidyToSentenceLimit text n) n = tidyToSentenceLimit text n.
Proof.
  destruct (truthy text) eqn:Ht.
  2:{ apply truthy_false in Ht. subst. reflexivity. }
  destruct (tidy_shape text n Ht) as (E1 & E2 & E3).
  set (r := tidyToSentenceLimit text n) in *.
  assert (Hr : truthy r = true) by (destruct r; [discriminate | reflexivity]).
  destruct n as [|n].
  - cbn [firstn] in E1. rewrite E1. reflexivity.
  - unfold tidyToSentenceLimit at 1. rewrite Hr. cbn [negb]. rewrite E2.
    rewrite firstn_all2.
    + rewrite <- E1. rewrite test_endsSentence, E3. reflexivity.
    + destruct (firstn (S n) (sentence_parts text)) as [|p ps] eqn:Eps; [simpl; lia|].
      assert (Hl : forall (q : list jstr) y, q <> [] -> length (removelast q ++ [y]) = length q).
      { intros q y Hq. rewrite (app_removelast_last [] Hq) at 2. rewrite !length_app. reflexivity. }
      rewrite <- Eps, Hl by (rewrite Eps; discriminate). apply firstn_le_length.
Qed.

(** X4: on a non-empty text, [tidyToSentenceLimit text n] keeps the first
    [n] sentences of the text (its pieces split after '.', '!' or '?' and
    whitespace, trimmed, empty ones dropped), joins them with single spaces
    and closes the last one with '.' if it ends in none of '.', '!', '?'
    (a lone '.' when no sentence is kept).  The output ends a sentence, and
    splitting it again gives back exactly the kept sentences. *)
Theorem tidy_sentence_shape (text : jstr) (n : nat) :
  truthy text = true ->
  let ps := firstn n (sentence_parts text) in
  let out := match ps with [] => [[ch "."]] | _ => removelast ps ++ [close_sentence (last ps [])] end in
  tidyToSentenceLimit text n = join_sp out /\
  sentence_parts (tidyToSentenceLimit text n) = out /\
  ends_sent (tidyToSentenceLimit text n) = true.
Proof. exact (tidy_shape text n). Qed.

Lemma tidy_sentence_shape_witness :
  tidyToSentenceLimit (js "Hello there.  How are you? fine thanks") 3
    = js "Hello there. How are you? fine thanks." /\
  (let ps := firstn 3 (sentence_parts (js "Hello there.  How are you? fine thanks")) in
   let out := match ps with [] => [[ch "."]] | _ => removelast ps ++ [close_sentence (last ps [])] end in
   tidyToSentenceLimit (js "Hello there.  How are you? fine thanks") 3 = join_sp out /\
   sentence_parts (tidyToSentenceLimit (js "Hello there.  How are you? fine thanks") 3) = out /\
   ends_sent (tidyToSentenceLimit (js "Hello there.  How are you? fine thanks") 3) = true).
Proof.
  split; [vm_compute; reflexivity|].
  apply tidy_sentence_shape. vm_compute. reflexivity.
Defined.

Lemma emoji_message_greeted_witness :
  detectIntent (js "I want to end my life " ++ units_of 128557 ++ []) = Emergency /\
  snd (submit [] idle_session (js "I want to end my life " ++ units_of 128557 ++ []))
    = [Say GreetNew] /\
  (isGreeting (js "I want to end my life " ++ units_of 128557 ++ []) = true /\
   (isSocialCheckIn (trim (js "I want to end my life " ++ units_of 128557 ++ [])) = false ->
    snd (submit [] idle_session (js "I want to end my life " ++ units_of 128557 ++ []))
      = [Say GreetAgain] \/
    snd (submit [] idle_session (js "I want to end my life " ++ units_of 128557 ++ []))
      = [Say GreetNew])).
Proof.
  split; [vm_compute; reflexivity|]. split; [vm_compute; reflexivity|].
  apply (emoji_message_greeted [] idle_session (js "I want to end my life ") [] 128557).
  - lia.
  - intros b a. reflexivity.
Defined.

Lemma emoji_tone_greeting_witness :
  classifyTone (js "i feel so sad " ++ units_of 128546 ++ []) = TGreeting.
Proof.
  apply (emoji_tone_greeting (js "i feel so sad ") [] 128546).
  - lia.
  - intros b a. reflexivity.
Defined.

Lemma consent_is_kept_witness :
  searchOptIn (fst (submit_all [] (set_consent idle_session true None)
                                [js "what is the weather?"; js "and tomorrow?"])) = true /\
  Forall (fun es => ~ In (Say AskConsent) es)
         (snd (submit_all [] (set_consent idle_session true None)
                          [js "what is the weather?"; js "and tomorrow?"])).
Proof.
  apply consent_is_kept. reflexivity.
Defined.

Lemma web_search_needs_consent_witness :
  snd (submit [] st_pending (js "yes please")) = [WebSearch (js "what is the weather?")] /\
  (searchOptIn (fst (submit [] st_pending (js "yes please"))) = true /\
   (searchOptIn st_pending = true \/
    (awaitingSearchConsent st_pending <> None /\ test rx_yes (trim (js "yes please")) = true))).
Proof.
  split; [vm_compute; reflexivity|].
  apply (web_search_needs_consent [] st_pending (js "yes please") (js "what is the weather?")).
  vm_compute. left. reflexivity.
Defined.

Lemma greeting_saturates_witness :
  snd (submit_all [] st_five
         [js "hi"; js "tell me about sleep"; js "hello"])
    = [[Say GreetNew]; [ChatReply (js "tell me about sleep")]; [Say GreetAgain]] /\
  nth_error (snd (submit_all [] st_five
         [js "hi"; js "tell me about sleep"; js "hello"])) 2 = Some [Say GreetAgain].
Proof.
  split; [vm_compute; reflexivity|].
  refine (greeting_saturates [] st_five (js "hi") [js "tell me about sleep"; js "hello"]
            _ _ _ _ 1 (js "hello") _ _ _ _).
  - vm_compute. split; discriminate.
  - vm_compute. reflexivity.
  - vm_compute. reflexivity.
  - vm_compute. reflexivity.
  - reflexivity.
  - vm_compute. reflexivity.
  - vm_compute. reflexivity.
  - vm_compute. reflexivity.
Defined.


Lemma v1_crisis_reply_needs_router_witness :
  detectIntent (js "I have chest pain and I can't breathe") = Emergency /\
  v1_dispatch [topic_sleep; topic_feeding] false (js "I have chest pain and I can't breathe") route_basic_chat
    = (None, [V1RouteLLM (js "I have chest pain and I can't breathe");
              V1ReferenceError (js "chatReply")]) /\
  (~ In (V1Say Crisis) (snd (v1_dispatch [topic_sleep; topic_feeding] false
                               (js "I have chest pain and I can't breathe") route_basic_chat)) /\
   ~ In V1SayRouteEmergency (snd (v1_dispatch [topic_sleep; topic_feeding] false
                               (js "I have chest pain and I can't breathe") route_basic_chat)) /\
   (action route_basic_chat = js "basic_chat" ->
    v1_dispatch [topic_sleep; topic_feeding] false (js "I have chest pain and I can't breathe")
      route_basic_chat
    = (None, [V1RouteLLM (js "I have chest pain and I can't breathe");
              V1ReferenceError (js "chatReply")]))).
Proof.
  split; [vm_compute; reflexivity|]. split; [vm_compute; reflexivity|].
  apply v1_crisis_reply_needs_router.
  - vm_compute. reflexivity.
  - simpl. right. right. right. right. left. reflexivity.
Defined.

Lemma split_on_cons_ex (sep : Z) (u : jstr) : exists w ws, split_on sep u = w :: ws.
Proof.
  induction u as [|c u (w & ws & IH)]; [exists [], []; reflexivity|]. simpl.
  destruct (c =? sep); [eexists; eexists; reflexivity|]. rewrite IH. eexists; eexists; reflexivity.
Qed.

Lemma join_split_on (u : jstr) : join_sp (split_on 32 u) = u.
Proof.
  induction u as [|c u IH]; [reflexivity|]. simpl.
  destruct (split_on_cons_ex 32 u) as (w & ws & E).
  destruct (Z.eqb_spec c 32) as [->|Hc].
  - rewrite E in *. change (join_sp ([] :: w :: ws)) with ([] ++ 32 :: join_sp (w :: ws)).
    rewrite IH. reflexivity.
  - rewrite E in *. destruct ws as [|w' ws]; simpl in *; rewrite IH; reflexivity.
Qed.

Lemma split_on_no_sep (u : jstr) : Forall (fun w => ~ In 32 w) (split_on 32 u).
Proof.
  induction u as [|c u IH]; [repeat constructor; simpl; tauto|]. simpl.
  destruct (Z.eqb_spec c 32) as [->|Hc].
  - constructor; [simpl; tauto | exact IH].
  - destruct (split_on 32 u) as [|w ws]; [repeat constructor; simpl; intuition|].
    inversion IH; subst. constructor; [simpl; intuition | assumption].
Qed.

Lemma sp_ok_split (b : bool) (u : jstr) :
  sp_ok b u ->
  Forall (fun w => w <> []) (tl (split_on 32 u)) /\
  (b = true -> hd [] (split_on 32 u) <> []).
Proof.
  revert b; induction u as [|c u IH]; intros b Hs.
  - simpl in Hs. subst. split; [constructor | discriminate].
  - destruct Hs as [Hc Hr]. simpl.
    destruct (split_on_cons_ex 32 u) as (w & ws & E).
    destruct (Z.eqb_spec c 32) as [->|Hne].
    + rewrite (Hc eq_refl). split; [|discriminate].
      destruct (IH true Hr) as [A B]. rewrite E in *. constructor; [apply B; reflexivity | exact A].
    + destruct (IH false Hr) as [A _]. rewrite E in *. simpl in A |- *.
      split; [exact A | discriminate].
Qed.

Lemma sp_ok_nonspace (b : bool) (x : Z) (w : jstr) :
  x <> 32 -> sp_ok false w -> sp_ok b (x :: w).
Proof.
  intros Hx Hw. split; [intros E; congruence|].
  replace (x =? 32) with false by (symmetry; apply Z.eqb_neq; exact Hx). exact Hw.
Qed.

Lemma sp_ok_prefix (ys v : jstr) : ~ In 32 ys -> sp_ok false v -> sp_ok false (ys ++ v).
Proof.
  induction ys as [|y ys IH]; intros Hy Hv; [exact Hv|].
  simpl. apply sp_ok_nonspace; [intros ->; simpl in Hy; tauto|].
  apply IH; [simpl in Hy; tauto | exact Hv].
Qed.

Lemma sp_ok_units (b : bool) (l : list Z) :
  Forall (fun c => c = 32 \/ (units_of c <> [] /\ ~ In 32 (units_of c))) l ->
  sp_ok b l -> sp_ok b (encode l).
Proof.
  revert b; induction l as [|c l IH]; intros b Hf Hs; [exact Hs|].
  inversion Hf as [|? ? Hc Hl]; subst. destruct Hs as [H1 H2].
  rewrite encode_cons. destruct Hc as [->|[Hne Hno]].
  - split; [exact H1 | apply IH; assumption].
  - assert (Hc32 : (c =? 32) = false) by (apply Z.eqb_neq; intros ->; apply Hno;
      unfold units_of; simpl; left; reflexivity).
    rewrite Hc32 in H2. specialize (IH false Hl H2).
    destruct (units_of c) as [|x xs]; [congruence|].
    cbn [app]. apply sp_ok_nonspace; [intros ->; simpl in Hno; tauto|].
    apply sp_ok_prefix; [simpl in Hno; tauto | exact IH].
Qed.

Lemma drop_ws_full (s : jstr) : length (drop_ws s) = length s -> drop_ws s = s.
Proof.
  destruct s as [|c s]; [reflexivity|]. simpl. destruct (is_ws c); [|reflexivity].
  intros H. pose proof (length_drop_ws s). simpl in H. lia.
Qed.

Lemma trimmed_last (a : jstr) (x : Z) : trim (a ++ [x]) = a ++ [x] -> is_ws x = false.
Proof.
  intros H. set (s := a ++ [x]) in *.
  assert (Hl : length (trim s) = length s) by (rewrite H; reflexivity).
  unfold trim in Hl. rewrite length_rev in Hl.
  pose proof (length_drop_ws (rev (drop_ws s))) as A. rewrite length_rev in A.
  pose proof (length_drop_ws s) as B.
  assert (E1 : drop_ws s = s) by (apply drop_ws_full; lia).
  rewrite E1 in Hl. assert (E2 : drop_ws (rev s) = rev s).
  { apply drop_ws_full. rewrite Hl, length_rev. reflexivity. }
  subst s. rewrite rev_app_distr in E2. cbn [rev app drop_ws] in E2.
  destruct (is_ws x) eqn:Hx; [|reflexivity].
  pose proof (length_drop_ws (rev a)) as C. rewrite E2 in C. simpl in C. lia.
Qed.

Lemma ws_to_sp (b : bool) (l : list Z) :
  ws_ok b l -> (forall a x, l = a ++ [x] -> is_ws x = false) -> (l = [] -> b = false) ->
  sp_ok b l.
Proof.
  revert b; induction l as [|c r IH]; intros b Hw Hl He; [exact (He eq_refl)|].
  destruct Hw as [H1 H2]. split.
  - intros ->. apply H1. reflexivity.
  - assert (Ec : (c =? 32) = is_ws c).
    { destruct (is_ws c) eqn:Hc.
      - destruct (H1 eq_refl) as [-> _]. reflexivity.
      - apply Z.eqb_neq. intros ->. discriminate. }
    rewrite Ec. apply IH; [exact H2 | |].
    + intros a x ->. apply (Hl (c :: a) x). reflexivity.
    + intros ->. apply (Hl [] c). reflexivity.
Qed.

Lemma filter_truthy_all (L : list jstr) : Forall (fun w => w <> []) L -> filter truthy L = L.
Proof.
  induction L as [|w L IH]; intros H; [reflexivity|]. inversion H; subst. simpl.
  destruct (truthy w) eqn:E; [rewrite IH by assumption; reflexivity|].
  apply truthy_false in E. congruence.
Qed.

Section TokenizeFacts.
Context `{P : Platform} {UL : UnicodeLaws}.

Lemma norm_cp_units (c : Z) : norm_cp c -> c = 32 \/ (units_of c <> [] /\ ~ In 32 (units_of c)).
Proof.
  intros Hc. destruct (Z.eqb_spec c 32) as [->|Hne]; [left; reflexivity|right].
  destruct (norm_cp_facts c Hc) as (Hv & _). unfold valid_cp in Hv.
  destruct (Z.ltb_spec c 65536).
  - rewrite units_small by lia. split; [discriminate|]. simpl. intuition.
  - destruct (units_big c ltac:(lia)) as (hi & lo & -> & Hh & Hlo & _).
    split; [discriminate|]. simpl. intuition lia.
Qed.

Lemma normalize_sp_ok (s : jstr) : units_ok s -> normalize s = [] \/ sp_ok true (normalize s).
Proof.
  intros Hu. destruct (normalize_shape s Hu) as (l & E & Hq & Hw & Ht). rewrite E.
  destruct l as [|c r]; [left; reflexivity|right].
  apply sp_ok_units.
  - eapply Forall_impl; [|exact Hq]. exact norm_cp_units.
  - apply ws_to_sp.
    + destruct Hw as [_ Hw]. split; [|exact Hw]. intros Hc.
      rewrite (trimmed_head c r Ht) in Hc. discriminate.
    + intros a x Ea. rewrite Ea in Ht. exact (trimmed_last a x Ht).
    + discriminate.
Qed.

End TokenizeFacts.

(** X13: for a string of UTF-16 code units, the tokens of [tokenize] (the
    normalized string split on spaces, empty pieces dropped) are non-empty
    and hold no space, joining them with single spaces gives back
    [normalize s] exactly, and the [filter(Boolean)] step drops nothing
    unless the normalized string is empty. *)
Theorem tokenize_round_trip `{P : Platform} {UL : UnicodeLaws} (s : jstr) :
  units_ok s ->
  join_sp (tokenize s) = normalize s /\
  Forall (fun w => w <> [] /\ ~ In 32 w) (tokenize s) /\
  (normalize s <> [] -> tokenize s = split_on 32 (normalize s)).
Proof.
  intros Hu. unfold tokenize.
  destruct (normalize_sp_ok s Hu) as [E|Hs].
  - rewrite E. split; [reflexivity|]. split; [constructor | intros []; reflexivity].
  - destruct (sp_ok_split true _ Hs) as [A B].
    assert (Hall : Forall (fun w => w <> []) (split_on 32 (normalize s))).
    { destruct (split_on_cons_ex 32 (normalize s)) as (w & ws & Ew). rewrite Ew in *.
      constructor; [apply B; reflexivity | exact A]. }
    rewrite filter_truthy_all by exact Hall.
    split; [apply join_split_on|]. split; [|reflexivity].
    apply Forall_forall. intros w Hw. split.
    + exact (proj1 (Forall_forall _ _) Hall w Hw).
    + exact (proj1 (Forall_forall _ _) (split_on_no_sep _) w Hw).
Qed.

Lemma tokenize_round_trip_witness :
  tokenize (js "  Baby's   SLEEP, naps & feeds!! ") = [js "baby"; js "s"; js "sleep"; js "naps"; js "feeds"] /\
  (join_sp (tokenize (js "  Baby's   SLEEP, naps & feeds!! ")) = normalize (js "  Baby's   SLEEP, naps & feeds!! ") /\
   Forall (fun w => w <> [] /\ ~ In 32 w) (tokenize (js "  Baby's   SLEEP, naps & feeds!! ")) /\
   (normalize (js "  Baby's   SLEEP, naps & feeds!! ") <> [] ->
    tokenize (js "  Baby's   SLEEP, naps & feeds!! ") = split_on 32 (normalize (js "  Baby's   SLEEP, naps & feeds!! ")))).
Proof.
  split; [vm_compute; reflexivity|].
  apply (@tokenize_round_trip platform_ascii platform_ascii_laws).
  apply units_ok_check. vm_compute. reflexivity.
Defined.
